(** * Mastermind zkApp: the on-chain game contract

    A shallow embedding of [src/Mastermind.ts] (class [MastermindZkApp]) and
    the properties of its methods.

    The contract is an o1js [SmartContract] with eight on-chain [Field]s.
    A method reads the on-chain state (every [getAndRequireEquals] returns the
    value stored before the transaction), stages updates with [set], and
    emits balance changes with [send]; any failed assertion rejects the whole
    transaction.  The embedding keeps exactly that shape: a reader for the
    account and the network, a staged update, and an error. *)

From Stdlib Require Import NArith ZArith List String Bool Lia.
Import ListNotations.

Local Open Scope string_scope.
Local Open Scope list_scope.
Local Open Scope N_scope.

(** ** o1js values *)

(** [Field]: an element of the Pallas base field, kept as its canonical
    representative. *)
Definition Field : Type := N.

Module Fp.
Definition ORDER : N :=
  28948022309329048855892746252171976963363056481941560715954676764349967630337.

Definition add (x y : Field) : Field := (x + y) mod ORDER.
Definition mul (x y : Field) : Field := (x * y) mod ORDER.
Definition equals (x y : Field) : bool := x =? y.
Definition isEven (x : Field) : bool := N.even x.
Definition lessThan (x y : Field) : bool := x <? y.
Definition lessThanOrEqual (x y : Field) : bool := x <=? y.
Definition greaterThan (x y : Field) : bool := y <? x.
Definition greaterThanOrEqual (x y : Field) : bool := y <=? x.
End Fp.

(** [Bool.toField()] *)
Definition toField (b : bool) : Field := if b then 1 else 0.

(** [UInt64] and [UInt32]: unsigned integers whose arithmetic is range
    checked, so an overflowing operation fails instead of wrapping. *)
Definition UInt64 : Type := N.
Definition UInt32 : Type := N.

Definition UInt32_lessThan (x y : UInt32) : bool := x <? y.
Definition UInt32_greaterThanOrEqual (x y : UInt32) : bool := y <=? x.

Record PublicKey : Type := mkPublicKey { pk_x : Field; pk_isOdd : bool }.

Definition toFields (k : PublicKey) : list Field := [pk_x k; toField (pk_isOdd k)].

(** Outcome of a computation that may hit a failed assertion. *)
Inductive Result (A : Type) : Type :=
| Ok (a : A)
| Err (msg : string).
Arguments Ok {A} a.
Arguments Err {A} msg.

Definition isOk {A} (r : Result A) : bool :=
  match r with Ok _ => true | Err _ => false end.

(** ** What the contract imports *)

(** [Poseidon.hash] of o1js. *)
Class Poseidon : Type := { Poseidon_hash : list Field -> Field }.

Record RewardAndFinalizeSlot : Type :=
  mkRewardAndFinalizeSlot { rewardAmount : UInt64; finalizeSlot : UInt32 }.

(** The helpers the contract imports from [./utils.js].  The contract is
    embedded over any implementation of them; what the properties need of
    them is stated in [UtilsLaws]. *)
Class Utils : Type := {
  compressTurnCountMaxAttemptSolved : list Field -> Field;
  separateTurnCountAndMaxAttemptSolved : Field -> Field * Field * Field;
  compressRewardAndFinalizeSlot : UInt64 -> UInt32 -> Field;
  separateRewardAndFinalizeSlot : Field -> RewardAndFinalizeSlot;
  separateCombinationDigits : Field -> Result (list Field);
  validateCombination : list Field -> Result unit;
  getClueFromGuess : list Field -> list Field -> list Field;
  serializeClue : list Field -> Field;
  deserializeClue : Field -> list Field;
  checkIfSolved : list Field -> bool
}.

(** Modelled from the spec: the round-trip laws of the encoding codec of
    [./utils.js] (spec 4.1 and 8): unpacking recovers the packed tuple on the
    well-formed domain.  For reward and deadline the domain is given by the
    types [UInt64] and [UInt32]; for the turn state it is the values the state
    invariants allow: [maxAttempts] in [5,15], a 0/1 solved flag, and turn
    counts below the capacity [turnCountLimit] of the packing, which covers
    every count on-chain play can reach ([2 * 15 + 1]).  The solved test is
    "all positions are hit", a hit being the clue digit 2. *)
Class UtilsLaws (U : Utils) (turnCountLimit : N) : Prop := {
  turnCountLimit_covers : 2 * 15 + 1 < turnCountLimit;
  separate_compress_turn : forall t m b,
    t < turnCountLimit -> 5 <= m <= 15 -> b <= 1 ->
    separateTurnCountAndMaxAttemptSolved
      (compressTurnCountMaxAttemptSolved [t; m; b]) = (t, m, b);
  separate_compress_reward : forall r f,
    r < 2 ^ 64 -> f < 2 ^ 32 ->
    separateRewardAndFinalizeSlot (compressRewardAndFinalizeSlot r f)
    = mkRewardAndFinalizeSlot r f;
  checkIfSolved_all_hits : forall clue,
    checkIfSolved clue = forallb (N.eqb 2) clue
}.

(** Modelled from the spec: the public output of [StepProgramProof]
    ([./stepProgram.js]), the step trace "{ codeMasterId, codeBreakerId,
    solutionHash, turnCount, lastGuess, serializedClue }" of spec 3. *)
Record PublicOutputs : Type := mkPublicOutputs {
  po_codeMasterId : Field;
  po_codeBreakerId : Field;
  po_solutionHash : Field;
  po_lastGuess : Field;
  po_serializedClue : Field;
  po_turnCount : Field
}.

(** A proof carries its public output; [verifies] tells whether
    [proof.verify()] accepts it. *)
Record StepProgramProof : Type :=
  mkStepProgramProof { publicOutput : PublicOutputs; verifies : bool }.

Definition GAME_DURATION : N := 10.

(** ** The account *)

(** The eight [@state(Field)] variables, in declaration order. *)
Record AppState : Type := mkAppState {
  turnCountMaxAttemptsIsSolved : Field;
  codeMasterId : Field;
  codeBreakerId : Field;
  refereeId : Field;
  solutionHash : Field;
  unseparatedGuess : Field;
  serializedClue : Field;
  rewardFinalizeSlot : Field
}.

Definition zeroState : AppState := mkAppState 0 0 0 0 0 0 0 0.

Record Account : Type := mkAccount {
  address : PublicKey;
  provedState : bool;
  appState : AppState
}.

(** A balance change staged by [send({ to, amount })]. *)
Record Send : Type := mkSend {
  send_from : PublicKey;
  send_to : PublicKey;
  send_amount : UInt64
}.

(** What a method can read: the account as it is on chain, the network
    slot, and the transaction's sender. *)
Record Env : Type := mkEnv {
  this : Account;
  globalSlotSinceGenesis : UInt32;
  sender : PublicKey
}.

(** What a method stages: the new app state, whether all eight fields were
    set by [init()], and the balance changes. *)
Record Draft : Type := mkDraft {
  staged : AppState;
  allFieldsSet : bool;
  sends : list Send
}.

(** ** The method monad: reader of [Env], state of [Draft], error. *)
Definition M (A : Type) : Type := Env -> Draft -> Result (A * Draft).

Definition ret {A} (a : A) : M A := fun _ d => Ok (a, d).

Definition bind {A B} (m : M A) (k : A -> M B) : M B :=
  fun e d => match m e d with
             | Ok (a, d') => k a e d'
             | Err msg => Err msg
             end.

Declare Scope method_scope.
Delimit Scope method_scope with method.
Notation "x <- c1 ;; c2" := (bind c1 (fun x => c2))
  (at level 61, c1 at next level, right associativity) : method_scope.
Notation "c1 ;; c2" := (bind c1 (fun _ => c2))
  (at level 61, right associativity) : method_scope.
Local Open Scope method_scope.

Definition assertTrue (b : bool) (msg : string) : M unit :=
  fun _ d => if b then Ok (tt, d) else Err msg.

Definition assertFalse (b : bool) (msg : string) : M unit :=
  assertTrue (negb b) msg.

Definition assertEquals (x y : Field) (msg : string) : M unit :=
  assertTrue (Fp.equals x y) msg.

Definition assertNotEquals (x y : Field) (msg : string) : M unit :=
  assertTrue (negb (Fp.equals x y)) msg.

Definition liftResult {A} (r : Result A) : M A :=
  fun _ d => match r with Ok a => Ok (a, d) | Err msg => Err msg end.

(** [this.<field>.getAndRequireEquals()]: the value on chain. *)
Definition getAndRequireEquals (field : AppState -> Field) : M Field :=
  fun e d => Ok (field (appState (this e)), d).

(** [this.<field>.set(v)]: stage an update. *)
Definition setState (upd : AppState -> AppState) : M unit :=
  fun _ d => Ok (tt, mkDraft (upd (staged d)) (allFieldsSet d) (sends d)).

Definition account_provedState : M bool :=
  fun e d => Ok (provedState (this e), d).

Definition network_globalSlotSinceGenesis : M UInt32 :=
  fun e d => Ok (globalSlotSinceGenesis e, d).

Definition sender_getAndRequireSignature : M PublicKey :=
  fun e d => Ok (sender e, d).

Definition this_address : M PublicKey :=
  fun e d => Ok (address (this e), d).

(** [<account update>.send({ to, amount })] *)
Definition send (from to : PublicKey) (amount : UInt64) : M unit :=
  fun _ d => Ok (tt, mkDraft (staged d) (allFieldsSet d)
                             (sends d ++ [mkSend from to amount])).

(** [SmartContract.init()]: requires an unproved state and sets all eight
    fields to 0; a proof-authorised update of all eight fields is what makes
    [provedState] true. *)
Definition super_init : M unit :=
  fun e d => if provedState (this e)
             then Err "account.provedState precondition unsatisfied"
             else Ok (tt, mkDraft zeroState true (sends d)).

(** [UInt32.add] and [UInt64.mul]: the result is range checked. *)
Definition UInt32_add (x y : UInt32) : M UInt32 :=
  fun _ d => if x + y <? 2 ^ 32 then Ok (x + y, d) else Err "UInt32 overflow".

Definition UInt64_mul (x y : UInt64) : M UInt64 :=
  fun _ d => if x * y <? 2 ^ 64 then Ok (x * y, d) else Err "UInt64 overflow".

(** A [UInt64] method argument is range checked when it enters the circuit. *)
Definition UInt64_check (x : UInt64) : M unit :=
  fun _ d => if x <? 2 ^ 64 then Ok (tt, d) else Err "UInt64 out of range".

(** Field setters of [AppState]. *)
Definition with_turnCountMaxAttemptsIsSolved (v : Field) (s : AppState) : AppState :=
  mkAppState v (codeMasterId s) (codeBreakerId s) (refereeId s)
             (solutionHash s) (unseparatedGuess s) (serializedClue s)
             (rewardFinalizeSlot s).

Definition with_codeMasterId (v : Field) (s : AppState) : AppState :=
  mkAppState (turnCountMaxAttemptsIsSolved s) v (codeBreakerId s) (refereeId s)
             (solutionHash s) (unseparatedGuess s) (serializedClue s)
             (rewardFinalizeSlot s).

Definition with_codeBreakerId (v : Field) (s : AppState) : AppState :=
  mkAppState (turnCountMaxAttemptsIsSolved s) (codeMasterId s) v (refereeId s)
             (solutionHash s) (unseparatedGuess s) (serializedClue s)
             (rewardFinalizeSlot s).

Definition with_refereeId (v : Field) (s : AppState) : AppState :=
  mkAppState (turnCountMaxAttemptsIsSolved s) (codeMasterId s) (codeBreakerId s) v
             (solutionHash s) (unseparatedGuess s) (serializedClue s)
             (rewardFinalizeSlot s).

Definition with_solutionHash (v : Field) (s : AppState) : AppState :=
  mkAppState (turnCountMaxAttemptsIsSolved s) (codeMasterId s) (codeBreakerId s)
             (refereeId s) v (unseparatedGuess s) (serializedClue s)
             (rewardFinalizeSlot s).

Definition with_unseparatedGuess (v : Field) (s : AppState) : AppState :=
  mkAppState (turnCountMaxAttemptsIsSolved s) (codeMasterId s) (codeBreakerId s)
             (refereeId s) (solutionHash s) v (serializedClue s)
             (rewardFinalizeSlot s).

Definition with_serializedClue (v : Field) (s : AppState) : AppState :=
  mkAppState (turnCountMaxAttemptsIsSolved s) (codeMasterId s) (codeBreakerId s)
             (refereeId s) (solutionHash s) (unseparatedGuess s) v
             (rewardFinalizeSlot s).

Definition with_rewardFinalizeSlot (v : Field) (s : AppState) : AppState :=
  mkAppState (turnCountMaxAttemptsIsSolved s) (codeMasterId s) (codeBreakerId s)
             (refereeId s) (solutionHash s) (unseparatedGuess s)
             (serializedClue s) v.

(** ** The contract methods *)

Section MastermindZkApp.
Context {P : Poseidon} {U : Utils}.

(** [assertFinalized] *)
Definition assertFinalized : M unit :=
  rfs <- getAndRequireEquals rewardFinalizeSlot ;;
  let finalizeSlot := finalizeSlot (separateRewardAndFinalizeSlot rfs) in
  slot <- network_globalSlotSinceGenesis ;;
  assertTrue (UInt32_greaterThanOrEqual slot finalizeSlot)
             "The game has not been finalized yet!".

(** [assertNotFinalized] *)
Definition assertNotFinalized : M unit :=
  rfs <- getAndRequireEquals rewardFinalizeSlot ;;
  let finalizeSlot := finalizeSlot (separateRewardAndFinalizeSlot rfs) in
  slot <- network_globalSlotSinceGenesis ;;
  assertTrue (UInt32_lessThan slot finalizeSlot)
             "The game has already been finalized!".

(** [initGame(maxAttempts, refereePubKey)] *)
Definition initGame (maxAttempts : Field) (refereePubKey : PublicKey) : M unit :=
  isInitialized <- account_provedState ;;
  assertFalse isInitialized "The game has already been initialized!" ;;
  super_init ;;
  assertTrue (Fp.greaterThanOrEqual maxAttempts 5)
             "The minimum number of attempts allowed is 5!" ;;
  assertTrue (Fp.lessThanOrEqual maxAttempts 15)
             "The maximum number of attempts allowed is 15!" ;;
  let turnCountMaxAttemptsIsSolved' :=
    compressTurnCountMaxAttemptSolved [0; maxAttempts; 0] in
  setState (with_turnCountMaxAttemptsIsSolved turnCountMaxAttemptsIsSolved') ;;
  let refereeId' := Poseidon_hash (toFields refereePubKey) in
  setState (with_refereeId refereeId').

(** [createGame(unseparatedSecretCombination, salt, rewardAmount)] *)
Definition createGame (unseparatedSecretCombination salt : Field)
                      (rewardAmount : UInt64) : M unit :=
  UInt64_check rewardAmount ;;
  isInitialized <- account_provedState ;;
  assertTrue isInitialized "The game has not been initialized yet!" ;;
  tmi <- getAndRequireEquals turnCountMaxAttemptsIsSolved ;;
  let '(turnCount, maxAttempts, isSolved) :=
    separateTurnCountAndMaxAttemptSolved tmi in
  assertEquals turnCount 0 "A mastermind game is already created!" ;;
  secretCombination <- liftResult (separateCombinationDigits unseparatedSecretCombination) ;;
  liftResult (validateCombination secretCombination) ;;
  let solutionHash' := Poseidon_hash (secretCombination ++ [salt]) in
  setState (with_solutionHash solutionHash') ;;
  codeMaster <- sender_getAndRequireSignature ;;
  let codeMasterId' := Poseidon_hash (toFields codeMaster) in
  setState (with_codeMasterId codeMasterId') ;;
  let updatedTurnCountMaxAttemptsIsSolved :=
    compressTurnCountMaxAttemptSolved [Fp.add turnCount 1; maxAttempts; isSolved] in
  setState (with_turnCountMaxAttemptsIsSolved updatedTurnCountMaxAttemptsIsSolved) ;;
  codeMaster' <- sender_getAndRequireSignature ;;
  zkapp <- this_address ;;
  send codeMaster' zkapp rewardAmount ;;
  setState (with_rewardFinalizeSlot (compressRewardAndFinalizeSlot rewardAmount 0)).

(** [acceptGame()] *)
Definition acceptGame : M unit :=
  isInitialized <- account_provedState ;;
  assertTrue isInitialized "The game has not been initialized yet!" ;;
  storedCodeBreakerId <- getAndRequireEquals codeBreakerId ;;
  assertEquals storedCodeBreakerId 0
               "The game has already been accepted by the codeBreaker!" ;;
  tmi <- getAndRequireEquals turnCountMaxAttemptsIsSolved ;;
  let '(turnCount, _, _) := separateTurnCountAndMaxAttemptSolved tmi in
  assertEquals turnCount 1 "The game has not been created yet!" ;;
  rfs <- getAndRequireEquals rewardFinalizeSlot ;;
  let rewardAmount := rewardAmount (separateRewardAndFinalizeSlot rfs) in
  codeBreaker <- sender_getAndRequireSignature ;;
  zkapp <- this_address ;;
  send codeBreaker zkapp rewardAmount ;;
  codeBreaker' <- sender_getAndRequireSignature ;;
  let codeBreakerId' := Poseidon_hash (toFields codeBreaker') in
  setState (with_codeBreakerId codeBreakerId') ;;
  currentSlot <- network_globalSlotSinceGenesis ;;
  finalizeSlot <- UInt32_add currentSlot GAME_DURATION ;;
  doubled <- UInt64_mul rewardAmount 2 ;;
  setState (with_rewardFinalizeSlot (compressRewardAndFinalizeSlot doubled finalizeSlot)).

(** [submitGameProof(proof)] *)
Definition submitGameProof (proof : StepProgramProof) : M unit :=
  isInitialized <- account_provedState ;;
  assertTrue isInitialized "The game has not been initialized yet!" ;;
  codeBreakerId' <- getAndRequireEquals codeBreakerId ;;
  assertNotEquals codeBreakerId' 0
                  "The game has not been accepted by the codeBreaker yet!" ;;
  assertNotFinalized ;;
  tmi <- getAndRequireEquals turnCountMaxAttemptsIsSolved ;;
  let '(turnCount, maxAttempts, isSolved) :=
    separateTurnCountAndMaxAttemptSolved tmi in
  assertEquals isSolved 0 "The game secret has already been solved!" ;;
  assertTrue (verifies proof) "The proof does not verify!" ;;
  let out := publicOutput proof in
  assertEquals (po_codeBreakerId out) codeBreakerId'
               "The code breaker ID is not same as the one stored on-chain!" ;;
  storedCodeMasterId <- getAndRequireEquals codeMasterId ;;
  assertEquals (po_codeMasterId out) storedCodeMasterId
               "The code master ID is not same as the one stored on-chain!" ;;
  storedSolutionHash <- getAndRequireEquals solutionHash ;;
  assertEquals (po_solutionHash out) storedSolutionHash
               "The solution hash is not same as the one stored on-chain!" ;;
  assertTrue (Fp.greaterThan (po_turnCount out) turnCount)
             "Cannot submit a proof for a previous turn!" ;;
  let maxAttemptsExceeded :=
    Fp.greaterThanOrEqual (po_turnCount out) (Fp.mul maxAttempts 2) in
  let deserializedClue := deserializeClue (po_serializedClue out) in
  let isSolved' :=
    toField (checkIfSolved deserializedClue && negb maxAttemptsExceeded) in
  setState (with_codeBreakerId (po_codeBreakerId out)) ;;
  setState (with_unseparatedGuess (po_lastGuess out)) ;;
  setState (with_serializedClue (po_serializedClue out)) ;;
  let updatedTurnCountMaxAttemptsIsSolved :=
    compressTurnCountMaxAttemptSolved [po_turnCount out; maxAttempts; isSolved'] in
  setState (with_turnCountMaxAttemptsIsSolved updatedTurnCountMaxAttemptsIsSolved).

(** [claimReward()] *)
Definition claimReward : M unit :=
  tmi <- getAndRequireEquals turnCountMaxAttemptsIsSolved ;;
  let '(_, _, isSolved) := separateTurnCountAndMaxAttemptSolved tmi in
  assertFinalized ;;
  claimer <- sender_getAndRequireSignature ;;
  codeMasterId' <- getAndRequireEquals codeMasterId ;;
  let computedCodeMasterId := Poseidon_hash (toFields claimer) in
  codeBreakerId' <- getAndRequireEquals codeBreakerId ;;
  let computedCodebreakerId := Poseidon_hash (toFields claimer) in
  let isCodeMaster := Fp.equals codeMasterId' computedCodeMasterId in
  let isCodeBreaker := Fp.equals codeBreakerId' computedCodebreakerId in
  assertTrue (isCodeMaster || isCodeBreaker)
             "You are not the codeMaster or codeBreaker of this game!" ;;
  let isWinner :=
    (isCodeMaster && Fp.equals isSolved 0)
    || (isCodeBreaker && Fp.equals isSolved 1) in
  assertTrue isWinner "You are not the winner of this game!" ;;
  rfs <- getAndRequireEquals rewardFinalizeSlot ;;
  let rewardAmount := rewardAmount (separateRewardAndFinalizeSlot rfs) in
  zkapp <- this_address ;;
  send zkapp claimer rewardAmount.

(** [penalizeCodeBreaker(codeMasterPubKey)] *)
Definition penalizeCodeBreaker (codeMasterPubKey : PublicKey) : M unit :=
  isInitialized <- account_provedState ;;
  assertTrue isInitialized "The game has not been initialized yet!" ;;
  refereeId' <- getAndRequireEquals refereeId ;;
  referee <- sender_getAndRequireSignature ;;
  let computedRefereeId := Poseidon_hash (toFields referee) in
  assertEquals refereeId' computedRefereeId
               "You are not the referee of this game!" ;;
  let codeMasterId' := Poseidon_hash (toFields codeMasterPubKey) in
  storedCodeMasterId <- getAndRequireEquals codeMasterId ;;
  assertEquals storedCodeMasterId codeMasterId'
               "The code master ID is not same as the one stored on-chain!" ;;
  rfs <- getAndRequireEquals rewardFinalizeSlot ;;
  let rewardAmount := rewardAmount (separateRewardAndFinalizeSlot rfs) in
  zkapp <- this_address ;;
  send zkapp codeMasterPubKey rewardAmount.

(** [penalizeCodeMaster(codeBreakerPubKey)] *)
Definition penalizeCodeMaster (codeBreakerPubKey : PublicKey) : M unit :=
  isInitialized <- account_provedState ;;
  assertTrue isInitialized "The game has not been initialized yet!" ;;
  refereeId' <- getAndRequireEquals refereeId ;;
  referee <- sender_getAndRequireSignature ;;
  let computedRefereeId := Poseidon_hash (toFields referee) in
  assertEquals refereeId' computedRefereeId
               "You are not the referee of this game!" ;;
  let codeBreakerId' := Poseidon_hash (toFields codeBreakerPubKey) in
  storedCodeBreakerId <- getAndRequireEquals codeBreakerId ;;
  assertEquals storedCodeBreakerId codeBreakerId'
               "The code breaker ID is not same as the one stored on-chain!" ;;
  rfs <- getAndRequireEquals rewardFinalizeSlot ;;
  let rewardAmount := rewardAmount (separateRewardAndFinalizeSlot rfs) in
  zkapp <- this_address ;;
  send zkapp codeBreakerPubKey rewardAmount.

(** The closure [setCodeBreakerId] of [makeGuess]: stages the update and
    returns the id it stored. *)
Definition setCodeBreakerId (computedCodebreakerId : Field) : M Field :=
  setState (with_codeBreakerId computedCodebreakerId) ;;
  ret computedCodebreakerId.

(** [Provable.if(cond, x, y)]: both arguments are values by the time it is
    called. *)
Definition Provable_if (cond : bool) (x y : Field) : Field :=
  if cond then x else y.

(** [makeGuess(unseparatedGuess)] *)
Definition makeGuess (unseparatedGuess' : Field) : M unit :=
  isInitialized <- account_provedState ;;
  assertTrue isInitialized "The game has not been initialized yet!" ;;
  assertNotFinalized ;;
  tmi <- getAndRequireEquals turnCountMaxAttemptsIsSolved ;;
  let '(turnCount, maxAttempts, isSolved) :=
    separateTurnCountAndMaxAttemptSolved tmi in
  assertEquals isSolved 0 "The game secret has already been solved!" ;;
  let isCodebreakerTurn := negb (Fp.isEven turnCount) in
  assertTrue isCodebreakerTurn
             "Please wait for the codeMaster to give you a clue!" ;;
  assertTrue (Fp.lessThan turnCount (Fp.mul maxAttempts 2))
             "You have reached the number limit of attempts to solve the secret combination!" ;;
  codeBreaker <- sender_getAndRequireSignature ;;
  let computedCodebreakerId := Poseidon_hash (toFields codeBreaker) in
  let isFirstGuess := Fp.equals turnCount 1 in
  (* the two value arguments of Provable.if, evaluated in order *)
  whenFirst <- setCodeBreakerId computedCodebreakerId ;;
  otherwise <- getAndRequireEquals codeBreakerId ;;
  let codeBreakerId' := Provable_if isFirstGuess whenFirst otherwise in
  assertEquals computedCodebreakerId codeBreakerId'
               "You are not the codeBreaker of this game!" ;;
  guessDigits <- liftResult (separateCombinationDigits unseparatedGuess') ;;
  liftResult (validateCombination guessDigits) ;;
  setState (with_unseparatedGuess unseparatedGuess') ;;
  let updatedTurnCountMaxAttemptsIsSolved :=
    compressTurnCountMaxAttemptSolved [Fp.add turnCount 1; maxAttempts; isSolved] in
  setState (with_turnCountMaxAttemptsIsSolved updatedTurnCountMaxAttemptsIsSolved).

(** [giveClue(unseparatedSecretCombination, salt)] *)
Definition giveClue (unseparatedSecretCombination salt : Field) : M unit :=
  isInitialized <- account_provedState ;;
  assertTrue isInitialized "The game has not been initialized yet!" ;;
  assertNotFinalized ;;
  tmi <- getAndRequireEquals turnCountMaxAttemptsIsSolved ;;
  let '(turnCount, maxAttempts, isSolved) :=
    separateTurnCountAndMaxAttemptSolved tmi in
  codeMaster <- sender_getAndRequireSignature ;;
  let computedCodemasterId := Poseidon_hash (toFields codeMaster) in
  storedCodeMasterId <- getAndRequireEquals codeMasterId ;;
  assertEquals storedCodeMasterId computedCodemasterId
               "Only the codeMaster of this game is allowed to give clue!" ;;
  assertTrue (Fp.lessThanOrEqual turnCount (Fp.mul maxAttempts 2))
             "The codeBreaker has finished the number of attempts without solving the secret combination!" ;;
  assertEquals isSolved 0
               "The codeBreaker has already solved the secret combination!" ;;
  let isNotFirstTurn := negb (Fp.equals turnCount 0) in
  let isCodemasterTurn := Fp.isEven turnCount && isNotFirstTurn in
  assertTrue isCodemasterTurn
             "Please wait for the codeBreaker to make a guess!" ;;
  solution <- liftResult (separateCombinationDigits unseparatedSecretCombination) ;;
  let computedSolutionHash := Poseidon_hash (solution ++ [salt]) in
  storedSolutionHash <- getAndRequireEquals solutionHash ;;
  assertEquals storedSolutionHash computedSolutionHash
               "The secret combination is not compliant with the stored hash on-chain!" ;;
  unseparatedGuess' <- getAndRequireEquals unseparatedGuess ;;
  guessDigits <- liftResult (separateCombinationDigits unseparatedGuess') ;;
  let clue := getClueFromGuess guessDigits solution in
  let serializedClue' := serializeClue clue in
  setState (with_serializedClue serializedClue') ;;
  let isSolvedThisTurn := toField (checkIfSolved clue) in
  let updatedTurnCountMaxAttemptsIsSolved :=
    compressTurnCountMaxAttemptSolved [Fp.add turnCount 1; maxAttempts; isSolvedThisTurn] in
  setState (with_turnCountMaxAttemptsIsSolved updatedTurnCountMaxAttemptsIsSolved).

(** ** Transactions *)

(** One method call of the contract. *)
Inductive Call : Type :=
| InitGame (maxAttempts : Field) (refereePubKey : PublicKey)
| CreateGame (unseparatedSecretCombination salt : Field) (rewardAmount : UInt64)
| AcceptGame
| SubmitGameProof (proof : StepProgramProof)
| ClaimReward
| PenalizeCodeBreaker (codeMasterPubKey : PublicKey)
| PenalizeCodeMaster (codeBreakerPubKey : PublicKey)
| MakeGuess (unseparatedGuess : Field)
| GiveClue (unseparatedSecretCombination salt : Field).

Definition method (c : Call) : M unit :=
  match c with
  | InitGame m r => initGame m r
  | CreateGame c s r => createGame c s r
  | AcceptGame => acceptGame
  | SubmitGameProof p => submitGameProof p
  | ClaimReward => claimReward
  | PenalizeCodeBreaker k => penalizeCodeBreaker k
  | PenalizeCodeMaster k => penalizeCodeMaster k
  | MakeGuess g => makeGuess g
  | GiveClue c s => giveClue c s
  end.

(** Who sends a transaction and when. *)
Record Tx : Type := mkTx { tx_sender : PublicKey; tx_slot : UInt32; tx_call : Call }.

(** A transaction that calls one method: the method runs against the
    account as it is on chain; if no assertion fails, the staged state
    replaces the on-chain state and the balance changes are emitted. *)
Definition invoke (tx : Tx) (a : Account) : Result (Account * list Send) :=
  match method (tx_call tx) (mkEnv a (tx_slot tx) (tx_sender tx))
               (mkDraft (appState a) false []) with
  | Ok (_, d) =>
      Ok (mkAccount (address a) (provedState a || allFieldsSet d) (staged d),
          sends d)
  | Err msg => Err msg
  end.

(** The account after a transaction; a rejected transaction changes nothing. *)
Definition exec (tx : Tx) (a : Account) : Account :=
  match invoke tx a with
  | Ok (a', _) => a'
  | Err _ => a
  end.

Definition execAll (txs : list Tx) (a : Account) : Account :=
  fold_left (fun acc tx => exec tx acc) txs a.

(** A freshly deployed account: zero state, not yet proved. *)
Definition deployed (zkapp : PublicKey) : Account :=
  mkAccount zkapp false zeroState.

(** Views of the two packed fields. *)
Definition turnCountOf (a : Account) : Field :=
  fst (fst (separateTurnCountAndMaxAttemptSolved
              (turnCountMaxAttemptsIsSolved (appState a)))).
Definition maxAttemptsOf (a : Account) : Field :=
  snd (fst (separateTurnCountAndMaxAttemptSolved
              (turnCountMaxAttemptsIsSolved (appState a)))).
Definition isSolvedOf (a : Account) : Field :=
  snd (separateTurnCountAndMaxAttemptSolved
         (turnCountMaxAttemptsIsSolved (appState a))).
Definition rewardAmountOf (a : Account) : UInt64 :=
  rewardAmount (separateRewardAndFinalizeSlot (rewardFinalizeSlot (appState a))).
Definition finalizeSlotOf (a : Account) : UInt32 :=
  finalizeSlot (separateRewardAndFinalizeSlot (rewardFinalizeSlot (appState a))).

(** The caller's identity hash. *)
Definition callerId (tx : Tx) : Field := Poseidon_hash (toFields (tx_sender tx)).

End MastermindZkApp.

(** ** A reference implementation of the imports

    The development above holds for every implementation of the imports.
    To run the contract on concrete transactions one implementation is fixed
    here. *)

(** A stand-in for [Poseidon.hash] (an o1js primitive): a polynomial
    accumulator over the field.  It is only used to evaluate scenarios; no
    theorem depends on its shape. *)
Definition toyHash (xs : list Field) : Field :=
  fold_left (fun acc x => (acc * 1000003 + x + 1) mod Fp.ORDER) xs 7.

Definition toyPoseidon : Poseidon := {| Poseidon_hash := toyHash |}.

(** Modelled from the spec: [compressTurnCountMaxAttemptSolved] of
    [./utils.js], "positional radix packing", "turn-count and max-attempts in
    low digits, solved-flag as top bit": eight bits each for the turn count
    and the maximum, the flag above them. *)
Definition refCompressTurnCountMaxAttemptSolved (fields : list Field) : Field :=
  match fields with
  | [turnCount; maxAttempts; isSolved] =>
      turnCount + 2 ^ 8 * maxAttempts + 2 ^ 16 * isSolved
  | _ => 0
  end.

(** Modelled from the spec: [separateTurnCountAndMaxAttemptSolved] of
    [./utils.js], the unpacking of the same layout. *)
Definition refSeparateTurnCountAndMaxAttemptSolved (x : Field) : Field * Field * Field :=
  (x mod 2 ^ 8, (x / 2 ^ 8) mod 2 ^ 8, x / 2 ^ 16).

(** Modelled from the spec: [compressRewardAndFinalizeSlot] of [./utils.js],
    "reward in high digits, deadline slot in low digits". *)
Definition refCompressRewardAndFinalizeSlot (r : UInt64) (f : UInt32) : Field :=
  r * 2 ^ 32 + f.

(** Modelled from the spec: [separateRewardAndFinalizeSlot] of [./utils.js]. *)
Definition refSeparateRewardAndFinalizeSlot (x : Field) : RewardAndFinalizeSlot :=
  mkRewardAndFinalizeSlot (x / 2 ^ 32) (x mod 2 ^ 32).

(** Modelled from the spec: [separateCombinationDigits] of [./utils.js],
    "combination = pack(d1,d2,d3,d4)", four decimal digits as in the tests'
    [Field(1234)]. *)
Definition refSeparateCombinationDigits (x : Field) : Result (list Field) :=
  Ok [x / 1000; (x / 100) mod 10; (x / 10) mod 10; x mod 10].

Fixpoint distinct (ds : list Field) : bool :=
  match ds with
  | [] => true
  | d :: rest => negb (existsb (N.eqb d) rest) && distinct rest
  end.

(** Modelled from the spec: [validateCombination] of [./utils.js], "digit
    range, uniqueness": four digits, each in 1..9, no digit twice. *)
Definition refValidateCombination (ds : list Field) : Result unit :=
  if Nat.eqb (List.length ds) 4 && forallb (fun d => (1 <=? d) && (d <=? 9)) ds
  then if distinct ds then Ok tt
       else Err "Combination digits should be unique!"
  else Err "Combination digit out of range!".

(** Remove one occurrence of [d]. *)
Fixpoint removeOne (d : Field) (xs : list Field) : list Field :=
  match xs with
  | [] => []
  | x :: rest => if x =? d then rest else x :: removeOne d rest
  end.

(** Solution digits left over by the exact-position pass. *)
Fixpoint unmatched (guess solution : list Field) : list Field :=
  match guess, solution with
  | g :: gs, s :: ss => if g =? s then unmatched gs ss else s :: unmatched gs ss
  | _, _ => []
  end.

(** The multiset pass: 2 for a hit, 1 for a blow that consumes a left-over
    solution digit, 0 for a miss. *)
Fixpoint markClue (guess solution pool : list Field) : list Field :=
  match guess, solution with
  | g :: gs, s :: ss =>
      if g =? s then 2 :: markClue gs ss pool
      else if existsb (N.eqb g) pool
           then 1 :: markClue gs ss (removeOne g pool)
           else 0 :: markClue gs ss pool
  | _, _ => []
  end.

(** Modelled from the spec: [getClueFromGuess] of [./utils.js], "exact-position
    pass, then multiset pass". *)
Definition refGetClueFromGuess (guess solution : list Field) : list Field :=
  markClue guess solution (unmatched guess solution).

(** Modelled from the spec: [serializeClue] of [./utils.js],
    "clue = pack(c1,c2,c3,c4) where each ci in {0,1,2}": two bits a digit. *)
Definition refSerializeClue (clue : list Field) : Field :=
  fold_right (fun c acc => c + 4 * acc) 0 clue.

(** Modelled from the spec: [deserializeClue] of [./utils.js]. *)
Definition refDeserializeClue (x : Field) : list Field :=
  [x mod 4; (x / 4) mod 4; (x / 16) mod 4; (x / 64) mod 4].

(** Modelled from the spec: [checkIfSolved] of [./utils.js],
    "isSolved(clue) := all positions are hit". *)
Definition refCheckIfSolved (clue : list Field) : bool := forallb (N.eqb 2) clue.

Definition refUtils : Utils := {|
  compressTurnCountMaxAttemptSolved := refCompressTurnCountMaxAttemptSolved;
  separateTurnCountAndMaxAttemptSolved := refSeparateTurnCountAndMaxAttemptSolved;
  compressRewardAndFinalizeSlot := refCompressRewardAndFinalizeSlot;
  separateRewardAndFinalizeSlot := refSeparateRewardAndFinalizeSlot;
  separateCombinationDigits := refSeparateCombinationDigits;
  validateCombination := refValidateCombination;
  getClueFromGuess := refGetClueFromGuess;
  serializeClue := refSerializeClue;
  deserializeClue := refDeserializeClue;
  checkIfSolved := refCheckIfSolved
|}.

(** The contract over the reference imports. *)
Definition refInvoke : Tx -> Account -> Result (Account * list Send) :=
  @invoke toyPoseidon refUtils.
Definition refExec : Tx -> Account -> Account := @exec toyPoseidon refUtils.
Definition refExecAll : list Tx -> Account -> Account := @execAll toyPoseidon refUtils.

(** ** The players and transactions of the scenarios *)

Definition zkappKey : PublicKey := mkPublicKey 1000 false.
Definition codeMasterKey : PublicKey := mkPublicKey 11 false.
Definition codeBreakerKey : PublicKey := mkPublicKey 22 true.
Definition refereeKey : PublicKey := mkPublicKey 33 false.
Definition intruderKey : PublicKey := mkPublicKey 44 true.

Definition salt0 : Field := 987654321.
Definition REWARD_AMOUNT : UInt64 := 100000.

(** init(5, referee); createGame(1234, salt, 100000) by the codeMaster *)
Definition txsCreated : list Tx :=
  [ mkTx codeMasterKey 0 (InitGame 5 refereeKey);
    mkTx codeMasterKey 0 (CreateGame 1234 salt0 REWARD_AMOUNT) ].

(** ... then acceptGame by the codeBreaker at slot 0 *)
Definition txsAccepted : list Tx :=
  txsCreated ++ [ mkTx codeBreakerKey 0 AcceptGame ].

Definition guess (who : PublicKey) (g : Field) : Tx := mkTx who 1 (MakeGuess g).
Definition clue1234 : Tx := mkTx codeMasterKey 1 (GiveClue 1234 salt0).

(** ... then four wrong guesses, each answered, and a fifth guess that is
    right: the turn count is 10 and the clue is still due. *)
Definition txsLastGuess : list Tx :=
  txsAccepted ++
  [ guess codeBreakerKey 2134; clue1234;
    guess codeBreakerKey 2143; clue1234;
    guess codeBreakerKey 4321; clue1234;
    guess codeBreakerKey 5678; clue1234;
    guess codeBreakerKey 1234 ].

Definition created : Account := refExecAll txsCreated (deployed zkappKey).
Definition accepted : Account := refExecAll txsAccepted (deployed zkappKey).
Definition lastGuessMade : Account := refExecAll txsLastGuess (deployed zkappKey).

(** Further transactions of the scenarios. *)

(** The referee penalizes the codeBreaker right after acceptance, at slot 0. *)
Definition penaltyTx : Tx := mkTx refereeKey 0 (PenalizeCodeBreaker codeMasterKey).

(** The codeMaster claims at the finalize slot of an unsolved game. *)
Definition claimTx : Tx := mkTx codeMasterKey 10 ClaimReward.

(** The codeMaster claims before anybody accepted the game. *)
Definition earlyClaimTx : Tx := mkTx codeMasterKey 0 ClaimReward.

(** Somebody who did not accept the game makes the first guess. *)
Definition intruderGuessTx : Tx := guess intruderKey 2134.

(** A step proof of a game solved at the second guess, as the players would
    build it off chain. *)
Definition completedProof : StepProgramProof :=
  mkStepProgramProof
    (mkPublicOutputs (toyHash (toFields codeMasterKey))
                     (toyHash (toFields codeBreakerKey))
                     (toyHash [1; 2; 3; 4; salt0])
                     1234 170 5)
    true.

Definition submitTx : Tx := mkTx codeBreakerKey 1 (SubmitGameProof completedProof).

(** A clue attempt with a secret other than the committed one. *)
Definition wrongClueTx : Tx := mkTx codeMasterKey 1 (GiveClue 4321 salt0).

Definition firstGuessMade : Account := refExec (guess codeBreakerKey 2134) accepted.

Definition firstClueGiven : Account := refExec clue1234 firstGuessMade.

(** The first three transactions of the scenarios, one by one. *)
Definition initTx : Tx := mkTx codeMasterKey 0 (InitGame 5 refereeKey).
Definition createTx : Tx := mkTx codeMasterKey 0 (CreateGame 1234 salt0 REWARD_AMOUNT).
Definition acceptTx : Tx := mkTx codeBreakerKey 0 AcceptGame.

Definition initialized : Account := refExec initTx (deployed zkappKey).

(** The game of [txsLastGuess] after its last clue: solved at turn count 11. *)
Definition solved : Account := refExec clue1234 lastGuessMade.

(** A guess sent at slot 12, after the finalize slot 10. *)
Definition lateGuessTx : Tx := mkTx codeBreakerKey 12 (MakeGuess 2134).

(** A step proof whose clue is all hits but whose turn count, 11, has passed
    twice maxAttempts. *)
Definition exhaustedProof : StepProgramProof :=
  mkStepProgramProof
    (mkPublicOutputs (toyHash (toFields codeMasterKey))
                     (toyHash (toFields codeBreakerKey))
                     (toyHash [1; 2; 3; 4; salt0])
                     1234 170 11)
    true.

Definition exhaustedTx : Tx := mkTx codeBreakerKey 1 (SubmitGameProof exhaustedProof).



(** ** Kinds of calls *)

(** The three methods that pay the pool out, and who is paid. *)
Definition isPayout (c : Call) : bool :=
  match c with
  | ClaimReward | PenalizeCodeBreaker _ | PenalizeCodeMaster _ => true
  | _ => false
  end.

Definition payee (tx : Tx) : PublicKey :=
  match tx_call tx with
  | PenalizeCodeBreaker codeMasterPubKey => codeMasterPubKey
  | PenalizeCodeMaster codeBreakerPubKey => codeBreakerPubKey
  | _ => tx_sender tx
  end.

(** The three methods that record play: a guess, a clue, or a whole proof. *)
Definition isPlay (c : Call) : bool :=
  match c with
  | MakeGuess _ | GiveClue _ _ | SubmitGameProof _ => true
  | _ => false
  end.

Definition isAcceptGame (c : Call) : bool :=
  match c with AcceptGame => true | _ => false end.

(** ** Further kinds of calls *)

(** The methods that start by requiring an initialized account. *)
Definition needsInit (c : Call) : bool :=
  match c with
  | InitGame _ _ | ClaimReward => false
  | _ => true
  end.

(** A call is well typed when its [UInt64] argument is in range. *)
Definition wellTyped (c : Call) : Prop :=
  match c with
  | CreateGame _ _ rewardAmount => rewardAmount < 2 ^ 64
  | _ => True
  end.

(** The two methods that take a stake from their sender. *)
Definition isDeposit (c : Call) : bool :=
  match c with
  | CreateGame _ _ _ | AcceptGame => true
  | _ => false
  end.

Definition isInitGame (c : Call) : bool :=
  match c with InitGame _ _ => true | _ => false end.


Definition isMakeGuess (c : Call) : bool :=
  match c with MakeGuess _ => true | _ => false end.

Definition isGiveClue (c : Call) : bool :=
  match c with GiveClue _ _ => true | _ => false end.

Definition isPenalty (c : Call) : bool :=
  match c with
  | PenalizeCodeBreaker _ | PenalizeCodeMaster _ => true
  | _ => false
  end.

(** The transfers an accepted transaction emits: a deposit from the sender by
    createGame and acceptGame, a payout of the stored reward amount by the
    three payout methods, nothing otherwise. *)
Definition transfersOf {U : Utils} (tx : Tx) (a : Account) : list Send :=
  match tx_call tx with
  | CreateGame _ _ rewardAmount => [mkSend (tx_sender tx) (address a) rewardAmount]
  | AcceptGame => [mkSend (tx_sender tx) (address a) (rewardAmountOf a)]
  | ClaimReward | PenalizeCodeBreaker _ | PenalizeCodeMaster _ =>
      [mkSend (address a) (payee tx) (rewardAmountOf a)]
  | _ => []
  end.

(** ** Notions used to state the properties *)

Section Notions.
Context {P : Poseidon} {U : Utils}.

(** The winner test of [claimReward]. *)
Definition isWinner (tx : Tx) (a : Account) : bool :=
  (Fp.equals (codeMasterId (appState a)) (callerId tx)
   && Fp.equals (isSolvedOf a) 0)
  || (Fp.equals (codeBreakerId (appState a)) (callerId tx)
      && Fp.equals (isSolvedOf a) 1).

(** The clue [giveClue] computes for the stored guess against the supplied
    secret (the empty clue when a combination does not separate). *)
Definition clueFor (a : Account) (unseparatedSecretCombination : Field) : list Field :=
  match separateCombinationDigits (unseparatedGuess (appState a)),
        separateCombinationDigits unseparatedSecretCombination with
  | Ok guessDigits, Ok solution => getClueFromGuess guessDigits solution
  | _, _ => []
  end.

(** The solved flag [submitGameProof] derives from a proof. *)
Definition proofSolves (proof : StepProgramProof) (maxAttempts : Field) : bool :=
  checkIfSolved (deserializeClue (po_serializedClue (publicOutput proof)))
  && negb (Fp.greaterThanOrEqual (po_turnCount (publicOutput proof))
                                 (Fp.mul maxAttempts 2)).

(** The turn count an accepted transaction leaves behind. *)
Definition nextTurnCount (tx : Tx) (a : Account) : Field :=
  match tx_call tx with
  | CreateGame _ _ _ | MakeGuess _ | GiveClue _ _ => turnCountOf a + 1
  | SubmitGameProof proof => po_turnCount (publicOutput proof)
  | _ => turnCountOf a
  end.

(** A transaction stays within the packing's capacity when the turn count of
    a submitted proof is below it. *)
Definition inCapacity (limit : N) (tx : Tx) : Prop :=
  match tx_call tx with
  | SubmitGameProof proof => po_turnCount (publicOutput proof) < limit
  | _ => True
  end.

(** The accounts reachable from a deployment by accepted transactions whose
    submitted proofs stay within the packing's capacity: [submitGameProof]
    itself does not compare a proof's turn count with any upper bound. *)
Inductive reachable (limit : N) (zkapp : PublicKey) : Account -> Prop :=
| reachable_deployed : reachable limit zkapp (deployed zkapp)
| reachable_invoke a tx a' out :
    reachable limit zkapp a ->
    inCapacity limit tx ->
    invoke tx a = Ok (a', out) ->
    reachable limit zkapp a'.

(** What every initialized reachable account satisfies: the turn state is a
    packing of in-range values. *)
Definition wellPacked (limit : N) (a : Account) : Prop :=
  provedState a = true ->
  exists t m b,
    turnCountMaxAttemptsIsSolved (appState a)
    = compressTurnCountMaxAttemptSolved [t; m; b]
    /\ t < limit /\ 5 <= m <= 15 /\ b <= 1.

End Notions.

(** * Properties *)

(** Unfold the method monad; what is left is the chain of tests. *)
Ltac simpl_method :=
  cbv beta iota zeta delta [bind ret assertTrue assertFalse assertEquals
    assertNotEquals liftResult getAndRequireEquals setState account_provedState
    network_globalSlotSinceGenesis sender_getAndRequireSignature this_address
    send super_init UInt32_add UInt64_mul UInt64_check
    this globalSlotSinceGenesis sender staged allFieldsSet sends
    tx_sender tx_slot tx_call] in *;
  cbn [fst snd app negb] in *.

Ltac unfold_method :=
  cbv beta delta [invoke exec method initGame createGame acceptGame
    submitGameProof claimReward penalizeCodeBreaker penalizeCodeMaster
    makeGuess giveClue assertFinalized assertNotFinalized setCodeBreakerId
    callerId turnCountOf maxAttemptsOf isSolvedOf rewardAmountOf finalizeSlotOf
    isWinner proofSolves] in *;
  simpl_method.

(** Split on the next test of a run that is known to succeed. *)
Ltac split_test H :=
  match type of H with
  | context [match separateTurnCountAndMaxAttemptSolved ?x with _ => _ end] =>
      let E := fresh "Eturn" in
      destruct (separateTurnCountAndMaxAttemptSolved x) as [[? ?] ?] eqn:E
  | context [match (if ?b then _ else _) with _ => _ end] =>
      let E := fresh "Etest" in
      destruct b eqn:E; [ | discriminate H ]
  | context [match separateCombinationDigits ?x with _ => _ end] =>
      let E := fresh "Edigits" in
      destruct (separateCombinationDigits x) eqn:E; [ | discriminate H ]
  | context [match validateCombination ?x with _ => _ end] =>
      let E := fresh "Evalid" in
      destruct (validateCombination x) as [[] | ] eqn:E; [ | discriminate H ]
  end.

Ltac run_ok H := unfold_method; repeat (split_test H; simpl_method).

(** The same, confined to one hypothesis. *)
Ltac simpl_method_in H :=
  cbv beta iota zeta delta [bind ret assertTrue assertFalse assertEquals
    assertNotEquals liftResult getAndRequireEquals setState account_provedState
    network_globalSlotSinceGenesis sender_getAndRequireSignature this_address
    send super_init UInt32_add UInt64_mul UInt64_check
    this globalSlotSinceGenesis sender staged allFieldsSet sends
    tx_sender tx_slot tx_call] in H;
  cbn [fst snd app negb] in H.

Ltac unfold_method_in H :=
  cbv beta delta [invoke exec method initGame createGame acceptGame
    submitGameProof claimReward penalizeCodeBreaker penalizeCodeMaster
    makeGuess giveClue assertFinalized assertNotFinalized setCodeBreakerId] in H;
  simpl_method_in H.

Ltac run_ok_in H := unfold_method_in H; repeat (split_test H; simpl_method_in H).

(** Split on the next test of the method under evaluation in the goal. *)
Ltac split_goal :=
  match goal with
  | |- context [match separateTurnCountAndMaxAttemptSolved ?x with _ => _ end] =>
      let E := fresh "Eturn" in
      destruct (separateTurnCountAndMaxAttemptSolved x) as [[? ?] ?] eqn:E
  | |- context [if ?b then _ else _] =>
      let E := fresh "Etest" in
      destruct b eqn:E
  end.

(** Reduce projections of a state built by the setters. *)
Ltac simpl_state :=
  cbn [appState provedState address turnCountMaxAttemptsIsSolved codeMasterId
       codeBreakerId refereeId solutionHash unseparatedGuess serializedClue
       rewardFinalizeSlot with_turnCountMaxAttemptsIsSolved with_codeMasterId
       with_codeBreakerId with_refereeId with_solutionHash
       with_unseparatedGuess with_serializedClue with_rewardFinalizeSlot
       rewardAmount finalizeSlot fst snd] in *.

Lemma Fp_equals_eq x y : Fp.equals x y = true <-> x = y.
Proof. unfold Fp.equals. apply N.eqb_eq. Qed.

Lemma Fp_equals_refl x : Fp.equals x x = true.
Proof. apply Fp_equals_eq. reflexivity. Qed.

(** Turn the passed equality tests into equations. *)
Ltac equalities :=
  repeat match goal with
         | E : Fp.equals _ _ = true |- _ => apply Fp_equals_eq in E
         end.

Section Properties.
Context {P : Poseidon} {U : Utils}.

(** C10. A successful claimReward, penalizeCodeBreaker or penalizeCodeMaster
    leaves the account exactly as it was, so all eight state fields (and with
    them the stored reward amount and finalize slot) are unchanged; its only
    effect is one transfer of the stored reward amount out of the contract. *)
Theorem payout_only_transfers tx a a' out :
  isPayout (tx_call tx) = true ->
  invoke tx a = Ok (a', out) ->
  a' = a
  /\ appState a' = appState a
  /\ rewardAmountOf a' = rewardAmountOf a
  /\ finalizeSlotOf a' = finalizeSlotOf a
  /\ out = [mkSend (address a) (payee tx) (rewardAmountOf a)].
Proof.
  intros Hc H.
  assert (Ha : a' = a /\ out = [mkSend (address a) (payee tx) (rewardAmountOf a)]).
  { destruct tx as [who slot c]; destruct c; try discriminate Hc;
      unfold payee; run_ok H; injection H as <- <-;
      destruct a as [zkapp proved st]; cbn in *; subst;
      rewrite ?Bool.orb_false_r; split; reflexivity. }
  destruct Ha as [-> ->]. repeat split; reflexivity.
Qed.

(** C8. On an initialized contract the referee's penalty call succeeds as
    soon as the caller hashes to the stored refereeId and the named key hashes
    to the stored codeMasterId (penalizeCodeBreaker) or codeBreakerId
    (penalizeCodeMaster): whatever the slot, the finalize slot, the turn count
    and the solved flag are, it transfers the stored reward amount to the named
    party. *)
Theorem referee_penalty_succeeds tx a k :
  provedState a = true ->
  callerId tx = refereeId (appState a) ->
  (tx_call tx = PenalizeCodeBreaker k
   /\ Poseidon_hash (toFields k) = codeMasterId (appState a))
  \/ (tx_call tx = PenalizeCodeMaster k
      /\ Poseidon_hash (toFields k) = codeBreakerId (appState a)) ->
  invoke tx a = Ok (a, [mkSend (address a) k (rewardAmountOf a)]).
Proof.
  intros Hinit Href Hcall. destruct tx as [who slot c].
  destruct Hcall as [[Hc Hk] | [Hc Hk]]; cbn in Hc; subst c;
    unfold_method; rewrite Hinit; simpl_method;
    rewrite <- Href, Fp_equals_refl; simpl_method;
    rewrite Hk, Fp_equals_refl; simpl_method;
    destruct a; cbn in *; subst; reflexivity.
Qed.

(** C2. claimReward succeeds only if the caller hashes to the stored
    codeMasterId or codeBreakerId and is the winner (the codeMaster while
    isSolved is 0, the codeBreaker once it is 1); a successful call transfers
    the stored reward amount to the caller. *)
Theorem claimReward_pays_only_winner tx a a' out :
  tx_call tx = ClaimReward ->
  invoke tx a = Ok (a', out) ->
  (callerId tx = codeMasterId (appState a)
   \/ callerId tx = codeBreakerId (appState a))
  /\ ((callerId tx = codeMasterId (appState a) /\ isSolvedOf a = 0)
      \/ (callerId tx = codeBreakerId (appState a) /\ isSolvedOf a = 1))
  /\ out = [mkSend (address a) (tx_sender tx) (rewardAmountOf a)].
Proof.
  intros Hc H. destruct tx as [who slot c]; cbn in Hc; subst c.
  run_ok H. injection H as _ <-.
  apply Bool.orb_true_iff in Etest0, Etest1.
  repeat rewrite Bool.andb_true_iff in Etest1.
  repeat rewrite Fp_equals_eq in *.
  repeat split.
  - destruct Etest0 as [E | E]; [left | right]; symmetry; exact E.
  - destruct Etest1 as [[E1 E2] | [E1 E2]]; [left | right]; split; auto.
Qed.

Lemma not_Ok_Err {A} (r : Result A) :
  (forall x, r <> Ok x) -> exists msg, r = Err msg.
Proof.
  destruct r as [x | msg]; intros H; [ destruct (H x eq_refl) | eauto ].
Qed.

Lemma exec_rejected tx a :
  (exists msg, invoke tx a = Err msg) -> exec tx a = a.
Proof. intros [msg H]. unfold exec. rewrite H. reflexivity. Qed.

(** C1. submitGameProof succeeds only on an initialized, accepted,
    not-finalized, not-solved game, with a proof that verifies, whose
    codeBreakerId, codeMasterId and solutionHash equal the stored ones and
    whose turnCount is strictly greater than the stored one; the new state
    then holds the proof's lastGuess and serializedClue, and its turn state is
    the packing of the proof's turnCount (the stored maxAttempts and the
    derived solved flag beside it), which decodes to the proof's turnCount
    wherever the packing round-trips. *)
Theorem submitGameProof_adopts_proof tx a a' out proof (o := publicOutput proof) :
  tx_call tx = SubmitGameProof proof ->
  invoke tx a = Ok (a', out) ->
  (provedState a = true /\ codeBreakerId (appState a) <> 0
   /\ tx_slot tx < finalizeSlotOf a /\ isSolvedOf a = 0)
  /\ verifies proof = true
  /\ po_codeBreakerId o = codeBreakerId (appState a)
  /\ po_codeMasterId o = codeMasterId (appState a)
  /\ po_solutionHash o = solutionHash (appState a)
  /\ turnCountOf a < po_turnCount o
  /\ unseparatedGuess (appState a') = po_lastGuess o
  /\ serializedClue (appState a') = po_serializedClue o
  /\ turnCountMaxAttemptsIsSolved (appState a')
     = compressTurnCountMaxAttemptSolved
         [po_turnCount o; maxAttemptsOf a; toField (proofSolves proof (maxAttemptsOf a))]
  /\ (forall limit, UtilsLaws U limit ->
      po_turnCount o < limit -> 5 <= maxAttemptsOf a <= 15 ->
      turnCountOf a' = po_turnCount o).
Proof.
  intros Hc H. subst o. destruct tx as [who slot c]; cbn in Hc; subst c.
  run_ok H. injection H as <- <-.
  cbn [appState unseparatedGuess serializedClue turnCountMaxAttemptsIsSolved
       with_turnCountMaxAttemptsIsSolved with_serializedClue
       with_unseparatedGuess with_codeBreakerId].
  rewrite Fp_equals_eq in *.
  apply Bool.negb_true_iff in Etest0. unfold Fp.equals in Etest0.
  apply N.eqb_neq in Etest0.
  unfold UInt32_lessThan, Fp.greaterThan in *.
  rewrite N.ltb_lt in *.
  repeat split; try assumption.
  intros limit L Hlim Hmax.
  rewrite (separate_compress_turn (U := U)); try assumption.
  - reflexivity.
  - destruct (_ && _); cbn; lia.
Qed.

(** C7. A giveClue call whose secret digits and salt do not hash to the
    stored solutionHash is rejected, whoever calls it and whatever the game
    state is, and the account is left as it was. *)
Theorem giveClue_rejects_wrong_secret tx a unseparatedSecretCombination salt :
  tx_call tx = GiveClue unseparatedSecretCombination salt ->
  (forall solution,
      separateCombinationDigits unseparatedSecretCombination = Ok solution ->
      Poseidon_hash (solution ++ [salt]) <> solutionHash (appState a)) ->
  (exists msg, invoke tx a = Err msg) /\ exec tx a = a.
Proof.
  intros Hc Hhash.
  assert (Hrej : exists msg, invoke tx a = Err msg).
  { apply not_Ok_Err. intros [a' out] H.
    destruct tx as [who slot c]; cbn in Hc; subst c.
    run_ok H.
    match goal with
    | E : Fp.equals (solutionHash _) _ = true |- _ =>
        apply Fp_equals_eq in E; symmetry in E; revert E
    end.
    apply Hhash. reflexivity. }
  split; [ exact Hrej | apply exec_rejected, Hrej ].
Qed.

(** C5 (what the code does). The only finalization test of claimReward is
    that the current global slot is at least the stored finalize slot: an
    accepted call passed it as the winner, and every call of the winner that
    passes it is accepted.  Nothing tests that the finalize slot was ever set:
    while it is still 0, as in a game that was created and never accepted,
    the test passes at every slot and the winner's call is accepted and pays
    out the stored reward amount. *)
Theorem claimReward_checks_slot_only tx a :
  tx_call tx = ClaimReward ->
  (forall a' out, invoke tx a = Ok (a', out) ->
     finalizeSlotOf a <= tx_slot tx /\ isWinner tx a = true)
  /\ (finalizeSlotOf a <= tx_slot tx -> isWinner tx a = true ->
      invoke tx a = Ok (a, [mkSend (address a) (tx_sender tx) (rewardAmountOf a)]))
  /\ (finalizeSlotOf a = 0 -> isWinner tx a = true ->
      invoke tx a = Ok (a, [mkSend (address a) (tx_sender tx) (rewardAmountOf a)])).
Proof.
  intros Hc. destruct tx as [who slot c]; cbn in Hc; subst c.
  assert (Hsuff : finalizeSlotOf a <= slot ->
                  isWinner (mkTx who slot ClaimReward) a = true ->
                  invoke (mkTx who slot ClaimReward) a
                  = Ok (a, [mkSend (address a) who (rewardAmountOf a)])).
  { intros Hslot Hwin. unfold_method. split_goal. simpl_method.
    unfold UInt32_greaterThanOrEqual.
    apply N.leb_le in Hslot. rewrite Hslot.
    rewrite Hwin.
    apply Bool.orb_true_iff in Hwin.
    repeat rewrite Bool.andb_true_iff in Hwin.
    assert (Hparty : Fp.equals (codeMasterId (appState a)) (Poseidon_hash (toFields who))
                     || Fp.equals (codeBreakerId (appState a)) (Poseidon_hash (toFields who))
                     = true).
    { apply Bool.orb_true_iff. destruct Hwin as [[E _] | [E _]]; auto. }
    rewrite Hparty. rewrite Bool.orb_false_r. destruct a; reflexivity. }
  split; [ | split ].
  - intros a' out H. run_ok H. split.
    + unfold UInt32_greaterThanOrEqual in *. apply N.leb_le. assumption.
    + reflexivity.
  - exact Hsuff.
  - intros Hunset. apply Hsuff. cbn [tx_slot]. rewrite Hunset. lia.
Qed.

(** C3 (what the code does). On the first guess, that is while the stored
    turnCount is 1, makeGuess stores the caller's identity hash as
    codeBreakerId and accepts the guess, whatever codeBreakerId was stored
    before: a caller other than the bound codeBreaker is not rejected. *)
Theorem first_guess_rebinds_codeBreaker tx a unseparatedGuess guessDigits :
  tx_call tx = MakeGuess unseparatedGuess ->
  provedState a = true ->
  tx_slot tx < finalizeSlotOf a ->
  isSolvedOf a = 0 ->
  turnCountOf a = 1 ->
  1 < Fp.mul (maxAttemptsOf a) 2 ->
  separateCombinationDigits unseparatedGuess = Ok guessDigits ->
  validateCombination guessDigits = Ok tt ->
  exists a', invoke tx a = Ok (a', [])
             /\ codeBreakerId (appState a') = callerId tx.
Proof.
  intros Hc Hinit Hslot Hsolved Hturn Hmax Hdigits Hvalid.
  destruct tx as [who slot c]; cbn in Hc; subst c.
  unfold_method. rewrite Hinit. simpl_method.
  apply N.ltb_lt in Hslot. unfold UInt32_lessThan. rewrite Hslot.
  destruct (separateTurnCountAndMaxAttemptSolved _) as [[t m] s].
  cbn [fst snd] in *. subst t s.
  apply N.ltb_lt in Hmax. unfold Fp.lessThan. rewrite Hmax.
  cbn. rewrite Fp_equals_refl, Hdigits. cbn. rewrite Hvalid.
  eexists. split; reflexivity.
Qed.

(** X1. After the first guess (stored turnCount other than 1) makeGuess
    compares the caller with the stored codeBreakerId: a caller whose identity
    hash differs from it is rejected and the account is left as it was. *)
Theorem later_guess_rejects_stranger tx a unseparatedGuess :
  tx_call tx = MakeGuess unseparatedGuess ->
  turnCountOf a <> 1 ->
  callerId tx <> codeBreakerId (appState a) ->
  (exists msg, invoke tx a = Err msg) /\ exec tx a = a.
Proof.
  intros Hc Hturn Hid.
  assert (Hrej : exists msg, invoke tx a = Err msg).
  { apply not_Ok_Err. intros [a' out] H.
    destruct tx as [who slot c]; cbn in Hc; subst c.
    run_ok H.
    match goal with
    | E : Fp.equals _ (Provable_if _ _ _) = true |- _ =>
        apply Fp_equals_eq in E; unfold Provable_if in E;
        destruct (Fp.equals _ 1) eqn:Efirst in E
    end.
    - apply Fp_equals_eq in Efirst. contradiction.
    - contradiction. }
  split; [ exact Hrej | apply exec_rejected, Hrej ].
Qed.

(** While the stored finalize slot is 0, the not-finalized check of the three
    playing methods cannot pass: no slot is below 0. *)
Lemma play_needs_deadline tx a :
  finalizeSlotOf a = 0 ->
  isPlay (tx_call tx) = true ->
  exists msg, invoke tx a = Err msg.
Proof.
  intros Hfin Hplay. apply not_Ok_Err. intros [a' out] H.
  destruct tx as [who slot c]; destruct c; try discriminate Hplay;
    run_ok H;
    match goal with
    | E : UInt32_lessThan _ _ = true |- _ =>
        unfold UInt32_lessThan in E; rewrite Hfin in E;
        apply N.ltb_lt in E; lia
    end.
Qed.

(** Every method but createGame and acceptGame leaves the reward and
    finalize-slot field alone; createGame stores finalize slot 0. *)
Lemma rewardFinalizeSlot_kept tx a a' out :
  provedState a = true ->
  isAcceptGame (tx_call tx) = false ->
  invoke tx a = Ok (a', out) ->
  provedState a' = true
  /\ (rewardFinalizeSlot (appState a') = rewardFinalizeSlot (appState a)
      \/ exists r, r < 2 ^ 64
           /\ rewardFinalizeSlot (appState a') = compressRewardAndFinalizeSlot r 0).
Proof.
  intros Hinit Hc H.
  destruct tx as [who slot c]; destruct c; try discriminate Hc;
    unfold_method; rewrite Hinit in H; run_ok H; try discriminate H;
    injection H as <- <-;
    (split; [ reflexivity | ]); try (left; reflexivity).
  right. eexists. split; [ | reflexivity ].
  match goal with E : (_ <? _) = true |- _ => apply N.ltb_lt in E; exact E end.
Qed.

(** Outside the three playing methods the stored guess and clue are left
    alone once the contract is initialized. *)
Lemma guess_and_clue_kept tx a a' out :
  provedState a = true ->
  isPlay (tx_call tx) = false ->
  invoke tx a = Ok (a', out) ->
  unseparatedGuess (appState a') = unseparatedGuess (appState a)
  /\ serializedClue (appState a') = serializedClue (appState a).
Proof.
  intros Hinit Hc H.
  destruct tx as [who slot c]; destruct c; try discriminate Hc;
    unfold_method; rewrite Hinit in H; run_ok H; try discriminate H;
    injection H as <- <-; split; reflexivity.
Qed.

End Properties.

(** ** Properties that rest on the codec's round trip *)

Section CodecProperties.
Context {P : Poseidon} {U : Utils} (limit : N) {L : UtilsLaws U limit}.

(** C6. acceptGame succeeds only on an initialized game whose stored
    turnCount is 1 and whose codeBreakerId is 0; it then takes the stored
    reward amount from the caller into the contract, stores the hash of the
    caller's key as codeBreakerId, doubles the stored reward amount and sets
    the finalize slot to the current slot plus GAME_DURATION, which is 10. *)
Theorem acceptGame_matches_stake tx a a' out :
  tx_call tx = AcceptGame ->
  invoke tx a = Ok (a', out) ->
  (provedState a = true /\ turnCountOf a = 1 /\ codeBreakerId (appState a) = 0)
  /\ out = [mkSend (tx_sender tx) (address a) (rewardAmountOf a)]
  /\ codeBreakerId (appState a') = callerId tx
  /\ rewardAmountOf a' = 2 * rewardAmountOf a
  /\ finalizeSlotOf a' = tx_slot tx + GAME_DURATION
  /\ GAME_DURATION = 10.
Proof.
  intros Hc H. destruct tx as [who slot c]; cbn in Hc; subst c.
  run_ok H. injection H as <- <-.
  cbn [appState codeBreakerId rewardFinalizeSlot with_codeBreakerId
       with_rewardFinalizeSlot].
  rewrite Fp_equals_eq in *. rewrite N.ltb_lt in *.
  rewrite (separate_compress_reward (U := U)) by assumption.
  cbn [rewardAmount finalizeSlot].
  repeat split; try assumption; try reflexivity. lia.
Qed.

Lemma finalizeSlot_of_created r :
  r < 2 ^ 64 ->
  finalizeSlot (separateRewardAndFinalizeSlot (compressRewardAndFinalizeSlot r 0)) = 0.
Proof.
  intros Hr. rewrite (separate_compress_reward (U := U)); [ reflexivity | exact Hr | ].
  apply N.ltb_lt. reflexivity.
Qed.

(** A game that has no finalize slot keeps none, and keeps its stored guess
    and clue, as long as acceptGame is not called. *)
Lemma unaccepted_stays_unplayed txs : forall a,
  provedState a = true ->
  finalizeSlotOf a = 0 ->
  forallb (fun tx => negb (isAcceptGame (tx_call tx))) txs = true ->
  provedState (execAll txs a) = true
  /\ finalizeSlotOf (execAll txs a) = 0
  /\ unseparatedGuess (appState (execAll txs a)) = unseparatedGuess (appState a)
  /\ serializedClue (appState (execAll txs a)) = serializedClue (appState a).
Proof.
  induction txs as [ | tx txs IH ]; intros a Hinit Hfin Hno.
  - cbn. auto.
  - cbn [forallb] in Hno. apply Bool.andb_true_iff in Hno as [Htx Hno].
    apply Bool.negb_true_iff in Htx.
    unfold execAll. cbn [fold_left]. fold (execAll txs (exec tx a)).
    assert (Hstep : provedState (exec tx a) = true
                    /\ finalizeSlotOf (exec tx a) = 0
                    /\ unseparatedGuess (appState (exec tx a)) = unseparatedGuess (appState a)
                    /\ serializedClue (appState (exec tx a)) = serializedClue (appState a)).
    { unfold exec. destruct (invoke tx a) as [[a' out] | msg] eqn:H; [ | auto ].
      destruct (isPlay (tx_call tx)) eqn:Hplay.
      - destruct (play_needs_deadline tx a Hfin Hplay) as [msg Hrej]. congruence.
      - destruct (rewardFinalizeSlot_kept tx a a' out Hinit Htx H) as [Hinit' Hrfs].
        destruct (guess_and_clue_kept tx a a' out Hinit Hplay H) as [Hg Hc].
        repeat split; try assumption.
        unfold finalizeSlotOf in *.
        destruct Hrfs as [-> | [r [Hr ->]]]; [ exact Hfin | ].
        apply finalizeSlot_of_created, Hr. }
    destruct Hstep as (Hinit' & Hfin' & Hg & Hc).
    destruct (IH (exec tx a) Hinit' Hfin' Hno) as (H1 & H2 & H3 & H4).
    repeat split; congruence.
Qed.

(** C9. While the stored finalize slot is 0, that is before acceptGame has
    run, every makeGuess, giveClue and submitGameProof call is rejected and
    changes nothing: the not-finalized check asks for a slot below 0.
    Hence a game that createGame has set up keeps finalize slot 0 and its
    stored guess and clue through any transactions that do not call
    acceptGame. *)
Theorem no_play_before_acceptance :
  (forall tx a,
      finalizeSlotOf a = 0 -> isPlay (tx_call tx) = true ->
      (exists msg, invoke tx a = Err msg) /\ exec tx a = a)
  /\ (forall tx0 a a0 out0 secret salt reward txs,
        tx_call tx0 = CreateGame secret salt reward ->
        invoke tx0 a = Ok (a0, out0) ->
        forallb (fun tx => negb (isAcceptGame (tx_call tx))) txs = true ->
        finalizeSlotOf a0 = 0
        /\ finalizeSlotOf (execAll txs a0) = 0
        /\ unseparatedGuess (appState (execAll txs a0)) = unseparatedGuess (appState a)
        /\ serializedClue (appState (execAll txs a0)) = serializedClue (appState a)).
Proof.
  split.
  - intros tx a Hfin Hplay.
    pose proof (play_needs_deadline tx a Hfin Hplay) as Hrej.
    split; [ exact Hrej | apply exec_rejected, Hrej ].
  - intros tx0 a a0 out0 secret salt reward txs Hc H Hno.
    destruct tx0 as [who slot c]; cbn in Hc; subst c.
    assert (Hcreated : provedState a0 = true /\ finalizeSlotOf a0 = 0
                       /\ unseparatedGuess (appState a0) = unseparatedGuess (appState a)
                       /\ serializedClue (appState a0) = serializedClue (appState a)).
    { run_ok H. injection H as <- <-. simpl_state.
      repeat split; try reflexivity.
      apply finalizeSlot_of_created. apply N.ltb_lt. assumption. }
    destruct Hcreated as (Hinit & Hfin & Hg & Hcl).
    destruct (unaccepted_stays_unplayed txs a0 Hinit Hfin Hno) as (_ & H2 & H3 & H4).
    repeat split; congruence.
Qed.

Lemma Fp_add_1 t : t < 2 ^ 64 -> Fp.add t 1 = t + 1.
Proof.
  intros Ht. unfold Fp.add. apply N.mod_small.
  assert (2 ^ 64 + 1 < Fp.ORDER) by (apply N.ltb_lt; reflexivity).
  lia.
Qed.

Lemma Fp_mul_2 m : m <= 15 -> Fp.mul m 2 = 2 * m.
Proof.
  intros Hm. unfold Fp.mul. rewrite N.mod_small; [ lia | ].
  assert (30 < Fp.ORDER) by (apply N.ltb_lt; reflexivity).
  lia.
Qed.

Lemma toField_le_1 b : toField b <= 1.
Proof. destruct b; cbn; lia. Qed.

Lemma toField_1 b : toField b = 1 -> b = true.
Proof. destruct b; [ reflexivity | discriminate ]. Qed.

(** initGame sets up a well-packed turn state. *)
Lemma wellPacked_init tx a a' out :
  provedState a = false ->
  invoke tx a = Ok (a', out) ->
  wellPacked limit a'.
Proof.
  intros Hinit H Hinit'.
  pose proof (turnCountLimit_covers (U := U)) as Hlimit.
  destruct tx as [who slot c]; destruct c;
    unfold_method; rewrite Hinit in H; run_ok H; try discriminate H;
    injection H as <-; simpl_state; try discriminate Hinit'.
  exists 0, maxAttempts, 0.
  unfold Fp.greaterThanOrEqual, Fp.lessThanOrEqual in *.
  rewrite N.leb_le in *.
  repeat split; try assumption; lia.
Qed.

(** One accepted transaction on an initialized, well-packed account: the
    account stays initialized and well packed, maxAttempts is kept, the turn
    count moves as [nextTurnCount] says, a set solved flag stays set, and the
    flag is raised only by a winning clue. *)
Lemma step_turnState tx a a' out :
  provedState a = true ->
  wellPacked limit a ->
  inCapacity limit tx ->
  invoke tx a = Ok (a', out) ->
  provedState a' = true
  /\ wellPacked limit a'
  /\ maxAttemptsOf a' = maxAttemptsOf a
  /\ turnCountOf a' = nextTurnCount tx a
  /\ (isSolvedOf a = 1 -> isSolvedOf a' = 1)
  /\ (isSolvedOf a = 0 -> isSolvedOf a' = 1 ->
      (exists secret salt,
          tx_call tx = GiveClue secret salt
          /\ forallb (N.eqb 2) (clueFor a secret) = true
          /\ turnCountOf a <= 2 * maxAttemptsOf a)
      \/ (exists proof,
             tx_call tx = SubmitGameProof proof
             /\ forallb (N.eqb 2)
                  (deserializeClue (po_serializedClue (publicOutput proof))) = true
             /\ po_turnCount (publicOutput proof) < 2 * maxAttemptsOf a)).
Proof.
  intros Hinit Hwp Hcap H.
  pose proof (turnCountLimit_covers (U := U)) as Hlimit.
  destruct (Hwp Hinit) as (t & m & b & Hpk & Ht & Hm & Hb).
  assert (Hsep : separateTurnCountAndMaxAttemptSolved
                   (turnCountMaxAttemptsIsSolved (appState a)) = (t, m, b))
    by (rewrite Hpk; apply (separate_compress_turn (U := U)); assumption).
  assert (Hwrite : forall st,
             a' = mkAccount (address a) true st ->
             forall t' b',
             turnCountMaxAttemptsIsSolved st
             = compressTurnCountMaxAttemptSolved [t'; m; b'] ->
             t' < limit -> b' <= 1 ->
             provedState a' = true /\ wellPacked limit a'
             /\ maxAttemptsOf a' = m /\ turnCountOf a' = t' /\ isSolvedOf a' = b').
  { intros st -> t' b' Hst Ht' Hb'.
    unfold isSolvedOf, turnCountOf, maxAttemptsOf, wellPacked. simpl_state.
    rewrite Hst. rewrite (separate_compress_turn (U := U)) by assumption.
    repeat split. intros _. exists t', m, b'. auto. }
  unfold nextTurnCount, isSolvedOf, turnCountOf, maxAttemptsOf, clueFor.
  rewrite Hsep. cbn [fst snd].
  fold (isSolvedOf a') (turnCountOf a') (maxAttemptsOf a').
  destruct tx as [who slot c]; destruct c; cbn [tx_call];
    unfold_method_in H; rewrite ?Hinit in H; rewrite ?Hsep in H;
    run_ok_in H; try discriminate H;
    injection H as H _; symmetry in H; equalities.
  - (* createGame: the flag is carried over *)
    subst t.
    destruct (Hwrite _ H (Fp.add 0 1) b eq_refl) as (K1 & K2 & K3 & K4 & K5);
      [ rewrite Fp_add_1; [ lia | apply N.ltb_lt; reflexivity ] | assumption | ].
    rewrite K3, K4, K5.
    repeat split; try assumption; intros; congruence.
  - (* acceptGame *)
    destruct (Hwrite _ H t b Hpk Ht Hb) as (K1 & K2 & K3 & K4 & K5).
    rewrite K3, K4, K5.
    repeat split; try assumption; intros; congruence.
  - (* submitGameProof *)
    subst b.
    destruct (Hwrite _ H _ _ eq_refl Hcap (toField_le_1 _)) as (K1 & K2 & K3 & K4 & K5).
    rewrite K3, K4, K5.
    repeat split; try assumption; [ discriminate | ].
    intros _ Hraised. right. exists proof.
    apply toField_1, Bool.andb_true_iff in Hraised as [Hhits Hwithin].
    rewrite (checkIfSolved_all_hits (U := U)) in Hhits.
    apply Bool.negb_true_iff in Hwithin.
    unfold Fp.greaterThanOrEqual in Hwithin. rewrite Fp_mul_2 in Hwithin by lia.
    apply N.leb_gt in Hwithin. auto.
  - (* claimReward *)
    destruct (Hwrite _ H t b Hpk Ht Hb) as (K1 & K2 & K3 & K4 & K5).
    rewrite K3, K4, K5.
    repeat split; try assumption; intros; congruence.
  - (* penalizeCodeBreaker *)
    destruct (Hwrite _ H t b Hpk Ht Hb) as (K1 & K2 & K3 & K4 & K5).
    rewrite K3, K4, K5.
    repeat split; try assumption; intros; congruence.
  - (* penalizeCodeMaster *)
    destruct (Hwrite _ H t b Hpk Ht Hb) as (K1 & K2 & K3 & K4 & K5).
    rewrite K3, K4, K5.
    repeat split; try assumption; intros; congruence.
  - (* makeGuess: the flag is carried over *)
    subst b.
    unfold Fp.lessThan in *. rewrite Fp_mul_2 in * by lia. rewrite N.ltb_lt in *.
    destruct (Hwrite _ H (Fp.add t 1) 0 eq_refl) as (K1 & K2 & K3 & K4 & K5);
      [ rewrite Fp_add_1; [ lia | ] | lia | ].
    { apply N.lt_trans with 31; [ lia | apply N.ltb_lt; reflexivity ]. }
    rewrite K3, K4, K5.
    rewrite Fp_add_1 by (apply N.lt_trans with 31; [ lia | apply N.ltb_lt; reflexivity ]).
    repeat split; try assumption; intros; congruence.
  - (* giveClue *)
    subst b.
    unfold Fp.lessThanOrEqual in *. rewrite Fp_mul_2 in * by lia. rewrite N.leb_le in *.
    destruct (Hwrite _ H (Fp.add t 1) _ eq_refl) as (K1 & K2 & K3 & K4 & K5);
      [ rewrite Fp_add_1; [ lia | ] | apply toField_le_1 | ].
    { apply N.lt_trans with 31; [ lia | apply N.ltb_lt; reflexivity ]. }
    rewrite K3, K4, K5.
    rewrite Fp_add_1 by (apply N.lt_trans with 31; [ lia | apply N.ltb_lt; reflexivity ]).
    repeat split; try assumption; [ discriminate | ].
    intros _ Hraised. left.
    exists unseparatedSecretCombination, salt.
    apply toField_1 in Hraised.
    rewrite (checkIfSolved_all_hits (U := U)) in Hraised.
    repeat match goal with
           | E : separateCombinationDigits _ = Ok _ |- _ => rewrite E
           end.
    cbv iota. auto.
Qed.

Lemma reachable_wellPacked zkapp a :
  reachable limit zkapp a -> wellPacked limit a.
Proof.
  induction 1 as [ | a tx a' out Hreach IH Hcap H ].
  - intros Hinit. discriminate Hinit.
  - destruct (provedState a) eqn:Hinit.
    + apply (step_turnState tx a a' out Hinit IH Hcap H).
    + apply (wellPacked_init tx a a' out Hinit H).
Qed.


(** An accepted submitGameProof carries a larger turn count. *)
Lemma submitGameProof_turnCount_grows tx a a' out proof :
  tx_call tx = SubmitGameProof proof ->
  invoke tx a = Ok (a', out) ->
  turnCountOf a < po_turnCount (publicOutput proof).
Proof.
  intros Hc H. destruct tx as [who slot c]; cbn in Hc; subst c.
  run_ok H.
  match goal with
  | E : Fp.greaterThan _ _ = true |- _ =>
      unfold Fp.greaterThan in E; apply N.ltb_lt in E; exact E
  end.
Qed.

Lemma step_turnCount tx a a' out :
  provedState a = true ->
  wellPacked limit a ->
  inCapacity limit tx ->
  invoke tx a = Ok (a', out) ->
  maxAttemptsOf a' = maxAttemptsOf a
  /\ turnCountOf a' = nextTurnCount tx a
  /\ turnCountOf a <= turnCountOf a'
  /\ (isPlay (tx_call tx) = true -> turnCountOf a < turnCountOf a').
Proof.
  intros Hinit Hwp Hcap H.
  destruct (step_turnState tx a a' out Hinit Hwp Hcap H) as (_ & _ & Hmax & Hnext & _).
  split; [ exact Hmax | ]. split; [ exact Hnext | ].
  rewrite Hnext. unfold nextTurnCount.
  destruct (tx_call tx) eqn:Hc; cbn [isPlay];
    try (split; [ lia | intros; first [ discriminate | lia ] ]).
  pose proof (submitGameProof_turnCount_grows tx a a' out proof Hc H).
  split; [ lia | intros; assumption ].
Qed.

(** X2. As long as every submitted proof carries a turn count within the
    capacity of the turn state's packing (a bound that submitGameProof does
    not check): in an initialized account reached by accepted transactions
    with such proofs, an accepted transaction, with such a proof when it is a
    submitGameProof, keeps maxAttempts and never lowers the turn count:
    makeGuess and giveClue (and createGame) add exactly 1, submitGameProof
    installs the proof's strictly larger count, every other method keeps
    it. *)
Theorem turnCount_moves_forward zkapp tx a a' out :
  reachable limit zkapp a ->
  provedState a = true ->
  inCapacity limit tx ->
  invoke tx a = Ok (a', out) ->
  maxAttemptsOf a' = maxAttemptsOf a
  /\ turnCountOf a' = nextTurnCount tx a
  /\ turnCountOf a <= turnCountOf a'
  /\ (isPlay (tx_call tx) = true -> turnCountOf a < turnCountOf a').
Proof.
  intros Hreach Hinit Hcap H.
  apply reachable_wellPacked in Hreach.
  exact (step_turnCount tx a a' out Hinit Hreach Hcap H).
Qed.

(** X3. As long as every submitted proof carries a turn count within the
    capacity of the turn state's packing (a bound that submitGameProof does
    not check): once a game is created (stored turnCount other than 0) in an
    initialized account reached by accepted transactions with such proofs, no
    accepted transaction, with such a proof when it is a submitGameProof,
    changes the solution hash, the codeMaster id or the referee id, and the
    turn count does not return to 0. *)
Theorem commitment_fixed_after_creation zkapp tx a a' out :
  reachable limit zkapp a ->
  provedState a = true ->
  inCapacity limit tx ->
  turnCountOf a <> 0 ->
  invoke tx a = Ok (a', out) ->
  solutionHash (appState a') = solutionHash (appState a)
  /\ codeMasterId (appState a') = codeMasterId (appState a)
  /\ refereeId (appState a') = refereeId (appState a)
  /\ turnCountOf a' <> 0.
Proof.
  intros Hreach Hinit Hcap Hturn H.
  apply reachable_wellPacked in Hreach.
  destruct (step_turnCount tx a a' out Hinit Hreach Hcap H) as (_ & _ & Hle & _).
  assert (Hframe : solutionHash (appState a') = solutionHash (appState a)
                   /\ codeMasterId (appState a') = codeMasterId (appState a)
                   /\ refereeId (appState a') = refereeId (appState a)).
  { clear Hle Hreach Hcap.
    destruct tx as [who slot c]; destruct c;
      unfold_method; rewrite ?Hinit in H; run_ok H; try discriminate H;
      try (injection H as <- <-; repeat split; reflexivity).
    equalities. contradiction. }
  destruct Hframe as (H1 & H2 & H3).
  repeat split; try assumption. lia.
Qed.

End CodecProperties.

(** * The reference imports and the scenarios *)

Lemma ref_turn_roundtrip t m b :
  t < 256 -> 5 <= m <= 15 -> b <= 1 ->
  refSeparateTurnCountAndMaxAttemptSolved
    (refCompressTurnCountMaxAttemptSolved [t; m; b]) = (t, m, b).
Proof.
  intros Ht Hm Hb.
  unfold refSeparateTurnCountAndMaxAttemptSolved, refCompressTurnCountMaxAttemptSolved.
  change (2 ^ 8) with 256. change (2 ^ 16) with 65536.
  assert (E : (t + 256 * m + 65536 * b) mod 256 = t
              /\ ((t + 256 * m + 65536 * b) / 256) mod 256 = m
              /\ (t + 256 * m + 65536 * b) / 65536 = b).
  { zify. Z.to_euclidean_division_equations. lia. }
  destruct E as (-> & -> & ->). reflexivity.
Qed.

Lemma ref_reward_roundtrip r f :
  r < 2 ^ 64 -> f < 2 ^ 32 ->
  refSeparateRewardAndFinalizeSlot (refCompressRewardAndFinalizeSlot r f)
  = mkRewardAndFinalizeSlot r f.
Proof.
  intros Hr Hf.
  unfold refSeparateRewardAndFinalizeSlot, refCompressRewardAndFinalizeSlot.
  set (k := 2 ^ 32) in *.
  assert (Hk : k = 4294967296) by reflexivity. clearbody k.
  assert (E : (r * k + f) / k = r /\ (r * k + f) mod k = f).
  { zify. Z.to_euclidean_division_equations. nia. }
  destruct E as (-> & ->). reflexivity.
Qed.

(** The reference codec round-trips, with capacity 256 for the turn count. *)
Lemma refUtils_laws : UtilsLaws refUtils 256.
Proof.
  constructor.
  - apply N.ltb_lt. reflexivity.
  - exact ref_turn_roundtrip.
  - exact ref_reward_roundtrip.
  - intros clue. reflexivity.
Qed.

Lemma reachable_exec {P : Poseidon} {U : Utils} limit zkapp tx a :
  reachable limit zkapp a -> inCapacity limit tx -> reachable limit zkapp (exec tx a).
Proof.
  intros Hreach Hcap. unfold exec.
  destruct (invoke tx a) as [[a' out] | msg] eqn:H; [ | exact Hreach ].
  exact (reachable_invoke limit zkapp a tx a' out Hreach Hcap H).
Qed.

Lemma reachable_execAll {P : Poseidon} {U : Utils} limit zkapp txs : forall a,
  reachable limit zkapp a ->
  Forall (inCapacity limit) txs ->
  reachable limit zkapp (execAll txs a).
Proof.
  induction txs as [ | tx txs IH ]; intros a Hreach Hall.
  - exact Hreach.
  - inversion Hall as [ | ? ? Htx Hrest ]; subst.
    unfold execAll. cbn [fold_left]. apply IH; [ | exact Hrest ].
    apply reachable_exec; assumption.
Qed.


Lemma reachable_scenario txs :
  Forall (@inCapacity 256) txs ->
  @reachable toyPoseidon refUtils 256 zkappKey (refExecAll txs (deployed zkappKey)).
Proof.
  intros Hall. apply reachable_execAll; [ apply reachable_deployed | exact Hall ].
Qed.


Lemma reachable_accepted :
  @reachable toyPoseidon refUtils 256 zkappKey accepted.
Proof. apply (reachable_scenario txsAccepted). repeat constructor. Qed.

(** Witness of C1: the codeBreaker submits the completed proof on the accepted
    game; the account takes over its guess, clue and turn count. *)
Lemma submitGameProof_adopts_proof_witness :
  refInvoke submitTx accepted = Ok (refExec submitTx accepted, [])
  /\ unseparatedGuess (appState (refExec submitTx accepted)) = 1234
  /\ serializedClue (appState (refExec submitTx accepted)) = 170
  /\ @turnCountOf refUtils (refExec submitTx accepted) = 5.
Proof.
  assert (H : refInvoke submitTx accepted = Ok (refExec submitTx accepted, []))
    by (vm_compute; reflexivity).
  destruct (submitGameProof_adopts_proof (P := toyPoseidon) (U := refUtils)
              submitTx accepted _ _ completedProof eq_refl H)
    as (_ & _ & _ & _ & _ & _ & Hguess & Hclue & _ & Hturn).
  split; [ exact H | ].
  split; [ exact Hguess | ].
  split; [ exact Hclue | ].
  apply (Hturn 256 refUtils_laws).
  - vm_compute; reflexivity.
  - split; vm_compute; discriminate.
Defined.

(** Witness of C2: at the finalize slot of the unsolved game the codeMaster
    claims and is paid the pool of 200000. *)
Lemma claimReward_pays_only_winner_witness :
  refInvoke claimTx accepted = Ok (accepted, [mkSend zkappKey codeMasterKey 200000])
  /\ @callerId toyPoseidon claimTx = codeMasterId (appState accepted)
  /\ @isSolvedOf refUtils accepted = 0.
Proof.
  assert (H : refInvoke claimTx accepted
              = Ok (accepted, [mkSend zkappKey codeMasterKey 200000]))
    by (vm_compute; reflexivity).
  destruct (claimReward_pays_only_winner (P := toyPoseidon) (U := refUtils)
              claimTx accepted _ _ eq_refl H)
    as (_ & [[Hid Hflag] | [Hid Hflag]] & _).
  - split; [ exact H | split; [ exact Hid | exact Hflag ] ].
  - vm_compute in Hflag. discriminate Hflag.
Defined.

(** Witness of C3: after the codeBreaker accepted the game, an intruder's
    first guess is accepted and replaces the stored codeBreakerId. *)
Lemma first_guess_rebinds_codeBreaker_witness :
  codeBreakerId (appState accepted) = toyHash (toFields codeBreakerKey)
  /\ @callerId toyPoseidon intruderGuessTx <> codeBreakerId (appState accepted)
  /\ exists a', refInvoke intruderGuessTx accepted = Ok (a', [])
                /\ codeBreakerId (appState a') = toyHash (toFields intruderKey).
Proof.
  split; [ vm_compute; reflexivity | ].
  split; [ vm_compute; discriminate | ].
  apply (first_guess_rebinds_codeBreaker (P := toyPoseidon) (U := refUtils)
           intruderGuessTx accepted 2134 [2; 1; 3; 4]);
    vm_compute; reflexivity.
Defined.



(** The failing input of C5: the game is created but not accepted, so the
    finalize slot is still 0, and the codeMaster's claimReward at slot 0
    succeeds and pays out the stake. *)
Lemma claimReward_succeeds_while_unset :
  @finalizeSlotOf refUtils created = 0
  /\ refInvoke earlyClaimTx created
     = Ok (created, [mkSend zkappKey codeMasterKey 100000]).
Proof. split; vm_compute; reflexivity. Qed.

(** Witness of C5: the same early claim, from the theorem. *)
Lemma claimReward_checks_slot_only_witness :
  refInvoke earlyClaimTx created
  = Ok (created, [mkSend (address created) (tx_sender earlyClaimTx)
                         (@rewardAmountOf refUtils created)]).
Proof.
  destruct (claimReward_checks_slot_only (P := toyPoseidon) (U := refUtils)
              earlyClaimTx created eq_refl) as (_ & _ & Hunset).
  apply Hunset; vm_compute; reflexivity.
Defined.

(** Witness of C6: the codeBreaker accepts the created game at slot 0. *)
Lemma acceptGame_matches_stake_witness :
  refInvoke (mkTx codeBreakerKey 0 AcceptGame) created
  = Ok (accepted, [mkSend codeBreakerKey zkappKey 100000])
  /\ codeBreakerId (appState accepted) = toyHash (toFields codeBreakerKey)
  /\ @rewardAmountOf refUtils accepted = 2 * @rewardAmountOf refUtils created
  /\ @finalizeSlotOf refUtils accepted = 0 + GAME_DURATION.
Proof.
  assert (H : refInvoke (mkTx codeBreakerKey 0 AcceptGame) created
              = Ok (accepted, [mkSend codeBreakerKey zkappKey 100000]))
    by (vm_compute; reflexivity).
  destruct (acceptGame_matches_stake (P := toyPoseidon) (U := refUtils)
              256 (L := refUtils_laws) (mkTx codeBreakerKey 0 AcceptGame)
              created _ _ eq_refl H)
    as (_ & _ & Hid & Hreward & Hslot & _).
  split; [ exact H | ].
  split; [ exact Hid | ].
  split; [ exact Hreward | exact Hslot ].
Defined.

(** Witness of C7: after the first guess the codeMaster answers with the
    secret 4321 instead of the committed 1234; the call is rejected. *)
Lemma giveClue_rejects_wrong_secret_witness :
  (exists msg, refInvoke wrongClueTx firstGuessMade = Err msg)
  /\ refExec wrongClueTx firstGuessMade = firstGuessMade.
Proof.
  apply (giveClue_rejects_wrong_secret (P := toyPoseidon) (U := refUtils)
           wrongClueTx firstGuessMade 4321 salt0 eq_refl).
  intros solution Hdigits. vm_compute in Hdigits. injection Hdigits as <-.
  vm_compute. discriminate.
Defined.

(** Witness of C8: the referee penalizes the codeBreaker at slot 0, ten slots
    before the finalize slot, and the pool goes to the codeMaster. *)
Lemma referee_penalty_succeeds_witness :
  @finalizeSlotOf refUtils accepted = 10
  /\ refInvoke penaltyTx accepted
     = Ok (accepted, [mkSend (address accepted) codeMasterKey
                             (@rewardAmountOf refUtils accepted)]).
Proof.
  split; [ vm_compute; reflexivity | ].
  apply (referee_penalty_succeeds (P := toyPoseidon) (U := refUtils)
           penaltyTx accepted codeMasterKey).
  - vm_compute; reflexivity.
  - vm_compute; reflexivity.
  - left. split; vm_compute; reflexivity.
Defined.

(** Witness of C9: on the created, not yet accepted game a guess is rejected,
    and the game still has no finalize slot after a rejected guess and an
    early claim. *)
Lemma no_play_before_acceptance_witness :
  ((exists msg, refInvoke (guess codeBreakerKey 2134) created = Err msg)
   /\ refExec (guess codeBreakerKey 2134) created = created)
  /\ @finalizeSlotOf refUtils
       (refExecAll [guess codeBreakerKey 2134; earlyClaimTx] created) = 0.
Proof.
  destruct (no_play_before_acceptance (P := toyPoseidon) (U := refUtils)
              256 (L := refUtils_laws)) as [Hplay Hcreated].
  split.
  - apply Hplay; vm_compute; reflexivity.
  - assert (H : refInvoke (mkTx codeMasterKey 0 (CreateGame 1234 salt0 REWARD_AMOUNT))
                          (refExec (mkTx codeMasterKey 0 (InitGame 5 refereeKey))
                                   (deployed zkappKey))
                = Ok (created, [mkSend codeMasterKey zkappKey 100000]))
      by (vm_compute; reflexivity).
    destruct (Hcreated (mkTx codeMasterKey 0 (CreateGame 1234 salt0 REWARD_AMOUNT))
                _ _ _ 1234 salt0 REWARD_AMOUNT
                [guess codeBreakerKey 2134; earlyClaimTx] eq_refl H eq_refl)
      as (_ & Hkept & _).
    exact Hkept.
Defined.

(** Witness of C10: the referee's penalty leaves the account as it was. *)
Lemma payout_only_transfers_witness :
  refExec penaltyTx accepted = accepted
  /\ refInvoke penaltyTx accepted
     = Ok (refExec penaltyTx accepted, [mkSend zkappKey codeMasterKey 200000]).
Proof.
  assert (H : refInvoke penaltyTx accepted
              = Ok (refExec penaltyTx accepted, [mkSend zkappKey codeMasterKey 200000]))
    by (vm_compute; reflexivity).
  destruct (payout_only_transfers (P := toyPoseidon) (U := refUtils)
              penaltyTx accepted _ _ eq_refl H) as (Hsame & _).
  split; [ exact Hsame | exact H ].
Defined.

(** Witness of X1: after the first guess and clue the stored turn count is 3,
    and the intruder's guess is rejected. *)
Lemma later_guess_rejects_stranger_witness :
  @turnCountOf refUtils firstClueGiven = 3
  /\ (exists msg, refInvoke intruderGuessTx firstClueGiven = Err msg)
  /\ refExec intruderGuessTx firstClueGiven = firstClueGiven.
Proof.
  split; [ vm_compute; reflexivity | ].
  apply (later_guess_rejects_stranger (P := toyPoseidon) (U := refUtils)
           intruderGuessTx firstClueGiven 2134 eq_refl);
    vm_compute; discriminate.
Defined.

(** Witness of X2: the completed proof, of turn count 5 within the capacity
    256, moves the turn count of the accepted game from 1 to 5. *)
Lemma turnCount_moves_forward_witness :
  @turnCountOf refUtils (refExec submitTx accepted)
  = po_turnCount (publicOutput completedProof)
  /\ @maxAttemptsOf refUtils (refExec submitTx accepted)
     = @maxAttemptsOf refUtils accepted
  /\ @turnCountOf refUtils accepted < @turnCountOf refUtils (refExec submitTx accepted).
Proof.
  assert (H : refInvoke submitTx accepted = Ok (refExec submitTx accepted, []))
    by (vm_compute; reflexivity).
  assert (Hinit : provedState accepted = true) by (vm_compute; reflexivity).
  assert (Hcap : @inCapacity 256 submitTx) by (vm_compute; reflexivity).
  destruct (turnCount_moves_forward (P := toyPoseidon) (U := refUtils)
              256 (L := refUtils_laws) zkappKey submitTx accepted _ _
              reachable_accepted Hinit Hcap H) as (Hmax & Hnext & _ & Hplay).
  split; [ exact Hnext | ]. split; [ exact Hmax | apply Hplay; reflexivity ].
Defined.

(** Witness of X3: the same proof leaves the commitment alone. *)
Lemma commitment_fixed_after_creation_witness :
  solutionHash (appState (refExec submitTx accepted))
  = solutionHash (appState accepted)
  /\ codeMasterId (appState (refExec submitTx accepted))
     = codeMasterId (appState accepted)
  /\ @turnCountOf refUtils (refExec submitTx accepted) <> 0.
Proof.
  assert (H : refInvoke submitTx accepted = Ok (refExec submitTx accepted, []))
    by (vm_compute; reflexivity).
  assert (Hinit : provedState accepted = true) by (vm_compute; reflexivity).
  assert (Hcap : @inCapacity 256 submitTx) by (vm_compute; reflexivity).
  assert (Hturn : @turnCountOf refUtils accepted <> 0)
    by (vm_compute; discriminate).
  destruct (commitment_fixed_after_creation (P := toyPoseidon) (U := refUtils)
              256 (L := refUtils_laws) zkappKey submitTx accepted _ _
              reachable_accepted Hinit Hcap Hturn H) as (Hhash & Hid & _ & Hnz).
  split; [ exact Hhash | ]. split; [ exact Hid | exact Hnz ].
Defined.

(** * Life cycle, authorization and deadlines *)

Section Lifecycle.
Context {P : Poseidon} {U : Utils}.

(** A transaction never takes the proved state away. *)
Lemma provedState_exec tx a :
  provedState a = true -> provedState (exec tx a) = true.
Proof.
  intros Hinit. unfold exec, invoke.
  destruct (method _ _ _) as [[[] d] | msg]; cbn [provedState]; [ | exact Hinit ].
  rewrite Hinit. reflexivity.
Qed.

Lemma provedState_execAll txs : forall a,
  provedState a = true -> provedState (execAll txs a) = true.
Proof.
  induction txs as [ | tx txs IH ]; intros a Hinit; [ exact Hinit | ].
  unfold execAll. cbn [fold_left]. apply IH, provedState_exec, Hinit.
Qed.

Lemma initGame_makes_proved tx a a' out :
  isInitGame (tx_call tx) = true ->
  invoke tx a = Ok (a', out) ->
  provedState a' = true.
Proof.
  intros Hc H. destruct tx as [who slot c]; destruct c; try discriminate Hc.
  unfold_method_in H.
  destruct (provedState a) eqn:Hp; simpl_method_in H; [ discriminate H | ].
  run_ok_in H. injection H as <- _. reflexivity.
Qed.

(** X4. initGame runs at most once: after an accepted initGame, whatever
    transactions follow, every further initGame is rejected with "The game has
    already been initialized!". *)
Theorem initGame_only_once tx0 a a0 out0 txs tx :
  isInitGame (tx_call tx0) = true ->
  invoke tx0 a = Ok (a0, out0) ->
  isInitGame (tx_call tx) = true ->
  invoke tx (execAll txs a0) = Err "The game has already been initialized!".
Proof.
  intros Hc0 H0 Hc.
  pose proof (provedState_execAll txs a0 (initGame_makes_proved tx0 a a0 out0 Hc0 H0))
    as Hinit.
  destruct tx as [who slot c]; destruct c; try discriminate Hc.
  unfold_method. rewrite Hinit. reflexivity.
Qed.

(** X5. On an account that is not initialized, initGame rejects a maxAttempts
    below 5 and one above 15, each with its own message, and accepts every
    maxAttempts from 5 to 15: the account becomes proved, its turn state is
    the packing of (0, maxAttempts, 0), its refereeId is the hash of the
    referee's key, every other field is 0, and nothing is transferred. *)
Theorem initGame_sets_up tx a maxAttempts refereePubKey :
  tx_call tx = InitGame maxAttempts refereePubKey ->
  provedState a = false ->
  (maxAttempts < 5 ->
   invoke tx a = Err "The minimum number of attempts allowed is 5!")
  /\ (15 < maxAttempts ->
      invoke tx a = Err "The maximum number of attempts allowed is 15!")
  /\ (5 <= maxAttempts <= 15 ->
      invoke tx a
      = Ok (mkAccount (address a) true
              (mkAppState
                 (compressTurnCountMaxAttemptSolved [0; maxAttempts; 0])
                 0 0 (Poseidon_hash (toFields refereePubKey)) 0 0 0 0),
            [])).
Proof.
  intros Hc Hinit. destruct tx as [who slot c]; cbn in Hc; subst c.
  unfold_method. rewrite Hinit. simpl_method.
  unfold Fp.greaterThanOrEqual, Fp.lessThanOrEqual.
  repeat split.
  - intros Hlow. apply N.leb_gt in Hlow. rewrite Hlow. reflexivity.
  - intros Hhigh.
    assert (Hlow : (5 <=? maxAttempts) = true) by (apply N.leb_le; lia).
    apply N.leb_gt in Hhigh. rewrite Hlow, Hhigh. reflexivity.
  - intros [Hlow Hhigh]. apply N.leb_le in Hlow, Hhigh.
    rewrite Hlow, Hhigh. reflexivity.
Qed.

(** X8. On an account that is not initialized every method except initGame
    and claimReward is rejected with "The game has not been initialized
    yet!". *)
Theorem uninitialized_rejects tx a :
  provedState a = false ->
  needsInit (tx_call tx) = true ->
  wellTyped (tx_call tx) ->
  invoke tx a = Err "The game has not been initialized yet!".
Proof.
  intros Hinit Hc Htyped.
  destruct tx as [who slot c]; destruct c; try discriminate Hc;
    unfold_method; rewrite ?Hinit; try reflexivity.
  unfold wellTyped in Htyped. cbv beta iota delta [tx_call] in Htyped.
  apply N.ltb_lt in Htyped. rewrite Htyped. reflexivity.
Qed.

(** A playing method is accepted only before the finalize slot. *)
Lemma play_needs_time tx a a' out :
  isPlay (tx_call tx) = true ->
  invoke tx a = Ok (a', out) ->
  tx_slot tx < finalizeSlotOf a.
Proof.
  intros Hc H.
  destruct tx as [who slot c]; destruct c; try discriminate Hc;
    run_ok H;
    match goal with
    | E : UInt32_lessThan _ _ = true |- _ =>
        unfold UInt32_lessThan in E; apply N.ltb_lt in E; exact E
    end.
Qed.

(** claimReward is accepted only from the finalize slot on. *)
Lemma claim_needs_deadline tx a a' out :
  tx_call tx = ClaimReward ->
  invoke tx a = Ok (a', out) ->
  finalizeSlotOf a <= tx_slot tx.
Proof.
  intros Hc H. destruct tx as [who slot c]; cbn in Hc; subst c.
  run_ok H.
  match goal with
  | E : UInt32_greaterThanOrEqual _ _ = true |- _ =>
      unfold UInt32_greaterThanOrEqual in E; apply N.leb_le in E; exact E
  end.
Qed.

(** X13. From the finalize slot on, play is over: on an initialized account
    makeGuess and giveClue are rejected with "The game has already been
    finalized!", and submitGameProof is rejected too; the account is left as
    it was. *)
Theorem deadline_stops_play tx a :
  provedState a = true ->
  finalizeSlotOf a <= tx_slot tx ->
  isPlay (tx_call tx) = true ->
  (exists msg, invoke tx a = Err msg)
  /\ exec tx a = a
  /\ (isMakeGuess (tx_call tx) || isGiveClue (tx_call tx) = true ->
      invoke tx a = Err "The game has already been finalized!").
Proof.
  intros Hinit Hlate Hc.
  assert (Hrej : exists msg, invoke tx a = Err msg).
  { apply not_Ok_Err. intros [a' out] H.
    pose proof (play_needs_time tx a a' out Hc H). lia. }
  split; [ exact Hrej | ]. split; [ apply exec_rejected, Hrej | ].
  intros Hkind.
  assert (E : UInt32_lessThan (tx_slot tx) (finalizeSlotOf a) = false)
    by (apply N.ltb_ge; exact Hlate).
  destruct tx as [who slot c]; destruct c; try discriminate Hkind;
    unfold_method; rewrite Hinit; simpl_method; rewrite E; reflexivity.
Qed.

(** X16. On an initialized account a penalty call by anybody but the referee
    is rejected with "You are not the referee of this game!"; the referee's
    call naming a key that does not hash to the stored id of the party to be
    paid is rejected with the message of that party. *)
Theorem penalty_needs_referee tx a k :
  provedState a = true ->
  (tx_call tx = PenalizeCodeBreaker k \/ tx_call tx = PenalizeCodeMaster k) ->
  (callerId tx <> refereeId (appState a) ->
   invoke tx a = Err "You are not the referee of this game!")
  /\ (callerId tx = refereeId (appState a) ->
      tx_call tx = PenalizeCodeBreaker k ->
      Poseidon_hash (toFields k) <> codeMasterId (appState a) ->
      invoke tx a
      = Err "The code master ID is not same as the one stored on-chain!")
  /\ (callerId tx = refereeId (appState a) ->
      tx_call tx = PenalizeCodeMaster k ->
      Poseidon_hash (toFields k) <> codeBreakerId (appState a) ->
      invoke tx a
      = Err "The code breaker ID is not same as the one stored on-chain!").
Proof.
  intros Hinit Hc. destruct tx as [who slot c]. cbn [tx_call] in *.
  split; [ | split ].
  - intros Hnot.
    assert (E : Fp.equals (refereeId (appState a)) (Poseidon_hash (toFields who)) = false).
    { apply N.eqb_neq. intros E. apply Hnot. symmetry. exact E. }
    destruct Hc as [-> | ->]; unfold_method; rewrite Hinit; simpl_method;
      rewrite E; reflexivity.
  - intros Href -> Hkey.
    assert (E : Fp.equals (codeMasterId (appState a)) (Poseidon_hash (toFields k)) = false).
    { apply N.eqb_neq. intros E. apply Hkey. symmetry. exact E. }
    unfold_method. rewrite Hinit. simpl_method.
    rewrite <- Href, Fp_equals_refl. simpl_method. rewrite E. reflexivity.
  - intros Href -> Hkey.
    assert (E : Fp.equals (codeBreakerId (appState a)) (Poseidon_hash (toFields k)) = false).
    { apply N.eqb_neq. intros E. apply Hkey. symmetry. exact E. }
    unfold_method. rewrite Hinit. simpl_method.
    rewrite <- Href, Fp_equals_refl. simpl_method. rewrite E. reflexivity.
Qed.

(** X17. While an initialized game is not finalized, giveClue by anybody but
    the codeMaster is rejected with "Only the codeMaster of this game is
    allowed to give clue!", whatever secret and salt are supplied. *)
Theorem giveClue_needs_codeMaster tx a unseparatedSecretCombination salt :
  tx_call tx = GiveClue unseparatedSecretCombination salt ->
  provedState a = true ->
  tx_slot tx < finalizeSlotOf a ->
  callerId tx <> codeMasterId (appState a) ->
  invoke tx a = Err "Only the codeMaster of this game is allowed to give clue!".
Proof.
  intros Hc Hinit Hslot Hnot. destruct tx as [who slot c]; cbn in Hc; subst c.
  assert (E : Fp.equals (codeMasterId (appState a)) (Poseidon_hash (toFields who)) = false).
  { apply N.eqb_neq. intros E. apply Hnot. symmetry. exact E. }
  apply N.ltb_lt in Hslot.
  unfold_method. rewrite Hinit. simpl_method.
  unfold UInt32_lessThan. rewrite Hslot.
  destruct (separateTurnCountAndMaxAttemptSolved _) as [[t m] s].
  rewrite E. reflexivity.
Qed.

(** A bound codeBreakerId stays bound, as long as no caller hashes to 0. *)
Lemma codeBreakerId_stays_bound tx a :
  provedState a = true ->
  codeBreakerId (appState a) <> 0 ->
  callerId tx <> 0 ->
  codeBreakerId (appState (exec tx a)) <> 0.
Proof.
  intros Hinit Hbound Hcaller. unfold exec.
  destruct (invoke tx a) as [[a' out] | msg] eqn:H; [ | exact Hbound ].
  destruct tx as [who slot c]; destruct c;
    unfold_method_in H; rewrite ?Hinit in H; run_ok_in H; try discriminate H;
    injection H as <- _; simpl_state; equalities; try assumption; try congruence.
Qed.

Lemma codeBreakerId_stays_bound_all txs : forall a,
  provedState a = true ->
  codeBreakerId (appState a) <> 0 ->
  Forall (fun tx => callerId tx <> 0) txs ->
  codeBreakerId (appState (execAll txs a)) <> 0.
Proof.
  induction txs as [ | tx txs IH ]; intros a Hinit Hbound Hall; [ exact Hbound | ].
  inversion Hall as [ | ? ? Htx Hrest ]; subst.
  unfold execAll. cbn [fold_left]. apply IH; [ | | exact Hrest ].
  - apply provedState_exec, Hinit.
  - apply codeBreakerId_stays_bound; assumption.
Qed.

(** X9. acceptGame runs at most once: after an accepted acceptGame, and
    whatever transactions follow, every further acceptGame is rejected with
    "The game has already been accepted by the codeBreaker!", provided no
    caller's identity hash is 0 (the value that marks codeBreakerId as
    unset). *)
Theorem acceptGame_only_once tx0 a a0 out0 txs tx :
  tx_call tx0 = AcceptGame ->
  invoke tx0 a = Ok (a0, out0) ->
  callerId tx0 <> 0 ->
  Forall (fun t => callerId t <> 0) txs ->
  tx_call tx = AcceptGame ->
  invoke tx (execAll txs a0)
  = Err "The game has already been accepted by the codeBreaker!".
Proof.
  intros Hc0 H0 Hcaller Hall Hc.
  assert (Hstart : provedState a0 = true /\ codeBreakerId (appState a0) <> 0).
  { destruct tx0 as [who slot c]; cbn in Hc0; subst c.
    run_ok H0. injection H0 as <- _. simpl_state. split; [ reflexivity | exact Hcaller ]. }
  destruct Hstart as [Hinit Hbound].
  pose proof (provedState_execAll txs a0 Hinit) as Hinit'.
  pose proof (codeBreakerId_stays_bound_all txs a0 Hinit Hbound Hall) as Hbound'.
  apply N.eqb_neq in Hbound'.
  destruct tx as [who slot c]; cbn in Hc; subst c.
  unfold_method. rewrite Hinit'. simpl_method.
  unfold Fp.equals. rewrite Hbound'. reflexivity.
Qed.

(** Once the solved flag is not 0 and a game exists, a transaction changes
    neither the turn state nor the stored guess, clue and solution hash. *)
Lemma solved_step tx a :
  provedState a = true ->
  isSolvedOf a <> 0 ->
  turnCountOf a <> 0 ->
  turnCountMaxAttemptsIsSolved (appState (exec tx a))
  = turnCountMaxAttemptsIsSolved (appState a)
  /\ unseparatedGuess (appState (exec tx a)) = unseparatedGuess (appState a)
  /\ serializedClue (appState (exec tx a)) = serializedClue (appState a)
  /\ solutionHash (appState (exec tx a)) = solutionHash (appState a).
Proof.
  intros Hinit Hsolved Hturn. unfold exec.
  destruct (invoke tx a) as [[a' out] | msg] eqn:H; [ | repeat split ].
  destruct tx as [who slot c]; destruct c;
    unfold_method; rewrite ?Hinit in H; run_ok H; try discriminate H;
    equalities; try contradiction;
    injection H as <- _; repeat split.
Qed.

(** X12. A solved game is frozen: once the stored solved flag is not 0 (and
    the game exists, turnCount not 0), no sequence of transactions changes
    the turn state field, so the flag, the turn count and maxAttempts stay
    what they are, nor the stored guess, the stored clue or the solution
    hash. *)
Theorem solved_game_is_frozen txs : forall a,
  provedState a = true ->
  isSolvedOf a <> 0 ->
  turnCountOf a <> 0 ->
  turnCountMaxAttemptsIsSolved (appState (execAll txs a))
  = turnCountMaxAttemptsIsSolved (appState a)
  /\ isSolvedOf (execAll txs a) = isSolvedOf a
  /\ unseparatedGuess (appState (execAll txs a)) = unseparatedGuess (appState a)
  /\ serializedClue (appState (execAll txs a)) = serializedClue (appState a)
  /\ solutionHash (appState (execAll txs a)) = solutionHash (appState a).
Proof.
  induction txs as [ | tx txs IH ]; intros a Hinit Hsolved Hturn.
  - repeat split.
  - destruct (solved_step tx a Hinit Hsolved Hturn) as (E1 & E2 & E3 & E4).
    unfold execAll. cbn [fold_left]. fold (execAll txs (exec tx a)).
    destruct (IH (exec tx a)) as (K1 & K2 & K3 & K4 & K5).
    + apply provedState_exec, Hinit.
    + unfold isSolvedOf in *. rewrite E1. exact Hsolved.
    + unfold turnCountOf in *. rewrite E1. exact Hturn.
    + assert (Hflag : isSolvedOf (exec tx a) = isSolvedOf a)
        by (unfold isSolvedOf; rewrite E1; reflexivity).
      repeat split; congruence.
Qed.

(** X14. Claiming and playing exclude each other in time: if claimReward is
    accepted at some slot, then at that slot, and at every later one, every
    makeGuess, giveClue and submitGameProof on the same account is
    rejected. *)
Theorem claim_excludes_play claim play a a' out :
  tx_call claim = ClaimReward ->
  invoke claim a = Ok (a', out) ->
  isPlay (tx_call play) = true ->
  tx_slot claim <= tx_slot play ->
  (exists msg, invoke play a = Err msg) /\ exec play a = a.
Proof.
  intros Hc H Hplay Hslot.
  pose proof (claim_needs_deadline claim a a' out Hc H) as Hlate.
  assert (Hrej : exists msg, invoke play a = Err msg).
  { apply not_Ok_Err. intros [a'' out'] H'.
    pose proof (play_needs_time play a a'' out' Hplay H'). lia. }
  split; [ exact Hrej | apply exec_rejected, Hrej ].
Qed.

Lemma claim_winner tx a a' out :
  tx_call tx = ClaimReward ->
  invoke tx a = Ok (a', out) ->
  (callerId tx = codeMasterId (appState a) /\ isSolvedOf a = 0)
  \/ (callerId tx = codeBreakerId (appState a) /\ isSolvedOf a = 1).
Proof.
  intros Hc H. destruct tx as [who slot c]; cbn in Hc; subst c.
  run_ok H.
  match goal with
  | E : _ || _ = true |- _ \/ _ => apply Bool.orb_true_iff in E;
      repeat rewrite Bool.andb_true_iff in E; repeat rewrite Fp_equals_eq in E;
      destruct E as [[E1 E2] | [E1 E2]]; [ left | right ]; split; congruence
  end.
Qed.

(** X15. In one account state there is one winner: any two accepted
    claimReward calls, at whatever slots, come from callers with the same
    identity hash and emit the same amount. *)
Theorem claimers_share_identity tx1 tx2 a a1 out1 a2 out2 :
  tx_call tx1 = ClaimReward ->
  tx_call tx2 = ClaimReward ->
  invoke tx1 a = Ok (a1, out1) ->
  invoke tx2 a = Ok (a2, out2) ->
  callerId tx1 = callerId tx2
  /\ map send_amount out1 = map send_amount out2.
Proof.
  intros Hc1 Hc2 H1 H2.
  pose proof (claim_winner tx1 a a1 out1 Hc1 H1) as W1.
  pose proof (claim_winner tx2 a a2 out2 Hc2 H2) as W2.
  split.
  - destruct W1 as [[E1 F1] | [E1 F1]], W2 as [[E2 F2] | [E2 F2]];
      try congruence; rewrite F1 in F2; discriminate F2.
  - destruct tx1 as [who1 slot1 c1]; cbn in Hc1; subst c1.
    destruct tx2 as [who2 slot2 c2]; cbn in Hc2; subst c2.
    clear W1 W2. run_ok H1. run_ok H2.
    injection H1 as _ <-. injection H2 as _ <-. reflexivity.
Qed.

(** X18. What an accepted transaction transfers is fixed by its kind: a
    deposit from the sender into the contract for createGame (the amount
    given) and acceptGame (the stored reward amount), one payout of the stored
    reward amount out of the contract for claimReward and the two penalties,
    and nothing for initGame, makeGuess, giveClue and submitGameProof; the
    contract's address never changes. *)
Theorem transfers_by_kind tx a a' out :
  invoke tx a = Ok (a', out) ->
  out = transfersOf tx a /\ address a' = address a.
Proof.
  intros H. unfold transfersOf, payee.
  destruct tx as [who slot c]; destruct c; cbn [tx_call tx_sender].
  1: { unfold_method_in H.
       destruct (provedState a) eqn:Hp; simpl_method_in H; [ discriminate H | ].
       run_ok_in H. injection H as <- <-. split; reflexivity. }
  all: run_ok H; injection H as <- <-; split; reflexivity.
Qed.

(** X19. An accepted giveClue answers the stored guess with the committed
    secret: the caller is the codeMaster, the supplied digits and salt hash to
    the stored solution hash, the stored clue becomes the serialized clue of
    the stored guess against those digits, and the stored guess, the ids, the
    solution hash and the reward field are unchanged. *)
Theorem giveClue_answers_stored_guess tx a a' out unseparatedSecretCombination salt :
  tx_call tx = GiveClue unseparatedSecretCombination salt ->
  invoke tx a = Ok (a', out) ->
  callerId tx = codeMasterId (appState a)
  /\ (exists guessDigits solution,
         separateCombinationDigits (unseparatedGuess (appState a)) = Ok guessDigits
         /\ separateCombinationDigits unseparatedSecretCombination = Ok solution
         /\ Poseidon_hash (solution ++ [salt]) = solutionHash (appState a)
         /\ serializedClue (appState a')
            = serializeClue (getClueFromGuess guessDigits solution))
  /\ unseparatedGuess (appState a') = unseparatedGuess (appState a)
  /\ codeMasterId (appState a') = codeMasterId (appState a)
  /\ codeBreakerId (appState a') = codeBreakerId (appState a)
  /\ solutionHash (appState a') = solutionHash (appState a)
  /\ rewardFinalizeSlot (appState a') = rewardFinalizeSlot (appState a).
Proof.
  intros Hc H. destruct tx as [who slot c]; cbn in Hc; subst c.
  run_ok H. injection H as <- _. simpl_state. equalities.
  split; [ congruence | ].
  split; [ | repeat split ].
  eexists _, _. repeat split; try eassumption. congruence.
Qed.

(** X20. An accepted makeGuess records a validated guess: the game is
    unsolved, the stored turn count is odd and below twice maxAttempts (taken
    in the field), the supplied combination separates into digits that pass
    validateCombination, and it becomes the stored guess, while the stored
    clue, the solution hash, the codeMaster id and the reward field are
    unchanged. *)
Theorem makeGuess_records_valid_guess tx a a' out unseparatedGuess' :
  tx_call tx = MakeGuess unseparatedGuess' ->
  invoke tx a = Ok (a', out) ->
  isSolvedOf a = 0
  /\ N.odd (turnCountOf a) = true
  /\ turnCountOf a < Fp.mul (maxAttemptsOf a) 2
  /\ (exists guessDigits,
         separateCombinationDigits unseparatedGuess' = Ok guessDigits
         /\ validateCombination guessDigits = Ok tt)
  /\ unseparatedGuess (appState a') = unseparatedGuess'
  /\ codeBreakerId (appState a') = callerId tx
  /\ serializedClue (appState a') = serializedClue (appState a)
  /\ solutionHash (appState a') = solutionHash (appState a)
  /\ codeMasterId (appState a') = codeMasterId (appState a)
  /\ rewardFinalizeSlot (appState a') = rewardFinalizeSlot (appState a).
Proof.
  intros Hc H. destruct tx as [who slot c]; cbn in Hc; subst c.
  run_ok H. injection H as <- _. simpl_state.
  match goal with
  | E : Fp.lessThan _ _ = true |- _ => unfold Fp.lessThan in E; apply N.ltb_lt in E
  end.
  match goal with
  | E : negb (Fp.isEven _) = true |- _ =>
      unfold Fp.isEven in E; rewrite N.negb_even in E
  end.
  equalities.
  repeat split; try assumption.
  eexists. split; [ reflexivity | assumption ].
Qed.

(** Every method but initGame and claimReward is accepted only on an
    initialized account. *)
Lemma accepted_needs_init tx a a' out :
  needsInit (tx_call tx) = true ->
  invoke tx a = Ok (a', out) ->
  provedState a = true.
Proof.
  intros Hc H.
  destruct tx as [who slot c]; destruct c; try discriminate Hc;
    run_ok H; reflexivity.
Qed.



(** X22. Why claimReward is rejected: before the finalize slot with "The game
    has not been finalized yet!"; from then on, for a caller who is neither
    the codeMaster nor the codeBreaker with "You are not the codeMaster or
    codeBreaker of this game!", and for one of the two who is not the winner
    with "You are not the winner of this game!". *)
Theorem claimReward_rejections tx a :
  tx_call tx = ClaimReward ->
  (tx_slot tx < finalizeSlotOf a ->
   invoke tx a = Err "The game has not been finalized yet!")
  /\ (finalizeSlotOf a <= tx_slot tx ->
      callerId tx <> codeMasterId (appState a) ->
      callerId tx <> codeBreakerId (appState a) ->
      invoke tx a
      = Err "You are not the codeMaster or codeBreaker of this game!")
  /\ (finalizeSlotOf a <= tx_slot tx ->
      callerId tx = codeMasterId (appState a)
      \/ callerId tx = codeBreakerId (appState a) ->
      isWinner tx a = false ->
      invoke tx a = Err "You are not the winner of this game!").
Proof.
  intros Hc. destruct tx as [who slot c]; cbn in Hc; subst c.
  unfold_method.
  destruct (separateTurnCountAndMaxAttemptSolved _) as [[t m] s].
  simpl_method. unfold UInt32_greaterThanOrEqual.
  split; [ | split ].
  - intros Hearly. apply N.leb_gt in Hearly. rewrite Hearly. reflexivity.
  - intros Hlate Hnm Hnb. apply N.leb_le in Hlate. rewrite Hlate.
    assert (E1 : Fp.equals (codeMasterId (appState a)) (Poseidon_hash (toFields who)) = false)
      by (apply N.eqb_neq; congruence).
    assert (E2 : Fp.equals (codeBreakerId (appState a)) (Poseidon_hash (toFields who)) = false)
      by (apply N.eqb_neq; congruence).
    rewrite E1, E2. reflexivity.
  - intros Hlate Hparty Hlose. apply N.leb_le in Hlate. rewrite Hlate.
    assert (E : Fp.equals (codeMasterId (appState a)) (Poseidon_hash (toFields who))
                || Fp.equals (codeBreakerId (appState a)) (Poseidon_hash (toFields who))
                = true).
    { apply Bool.orb_true_iff.
      destruct Hparty as [E | E]; [ left | right ]; apply Fp_equals_eq; congruence. }
    rewrite E, Hlose. reflexivity.
Qed.


End Lifecycle.

(** ** Life cycle properties that rest on the codec's round trip *)

Section CodecLifecycle.
Context {P : Poseidon} {U : Utils} (limit : N) {L : UtilsLaws U limit}.





(** X11. What an accepted submitGameProof makes of the solved flag, when the
    proof's turn count, and that of every proof accepted before it, is within
    the capacity of the turn state's packing (a bound that submitGameProof
    does not check): the flag becomes 1 exactly when every position of the
    proof's clue is a hit and the proof's turn count is strictly below twice
    maxAttempts; a proof whose turn count has reached twice maxAttempts leaves
    the game unsolved even with an all-hits clue. *)
Theorem submitGameProof_solves_below_limit zkapp tx a a' out proof :
  reachable limit zkapp a ->
  inCapacity limit tx ->
  tx_call tx = SubmitGameProof proof ->
  invoke tx a = Ok (a', out) ->
  isSolvedOf a'
  = toField (forallb (N.eqb 2)
               (deserializeClue (po_serializedClue (publicOutput proof)))
             && (po_turnCount (publicOutput proof) <? 2 * maxAttemptsOf a))
  /\ (2 * maxAttemptsOf a <= po_turnCount (publicOutput proof) ->
      isSolvedOf a' = 0).
Proof.
  intros Hreach Hcap Hc H.
  apply (reachable_wellPacked limit) in Hreach.
  assert (Hinit : provedState a = true)
    by (apply (accepted_needs_init tx a a' out); [ rewrite Hc; reflexivity | exact H ]).
  destruct (Hreach Hinit) as (t & m & b & Hpk & Ht & Hm & Hb).
  assert (Hsep : separateTurnCountAndMaxAttemptSolved
                   (turnCountMaxAttemptsIsSolved (appState a)) = (t, m, b))
    by (rewrite Hpk; apply (separate_compress_turn (U := U)); assumption).
  assert (Hflag : isSolvedOf a'
                  = toField (forallb (N.eqb 2)
                               (deserializeClue (po_serializedClue (publicOutput proof)))
                             && (po_turnCount (publicOutput proof) <? 2 * maxAttemptsOf a))).
  { unfold inCapacity in Hcap. rewrite Hc in Hcap.
    destruct tx as [who slot c]; cbn in Hc; subst c.
    unfold isSolvedOf, maxAttemptsOf. rewrite Hsep. cbn [fst snd].
    unfold_method_in H. rewrite Hinit, Hsep in H. run_ok_in H.
    injection H as <- _. simpl_state.
    rewrite (separate_compress_turn (U := U));
      [ | exact Hcap | exact Hm | apply toField_le_1 ].
    cbn [snd]. rewrite (checkIfSolved_all_hits (U := U)).
    unfold Fp.greaterThanOrEqual. rewrite Fp_mul_2 by lia.
    rewrite N.ltb_antisym. reflexivity. }
  split; [ exact Hflag | ].
  intros Hfull. rewrite Hflag.
  apply N.ltb_ge in Hfull. rewrite Hfull, Bool.andb_false_r. reflexivity.
Qed.

(** Through any transactions an initialized well-packed account stays so and
    its turn count does not go down. *)
Lemma turnCount_monotone_all txs : forall a,
  provedState a = true ->
  wellPacked limit a ->
  Forall (inCapacity limit) txs ->
  provedState (execAll txs a) = true
  /\ wellPacked limit (execAll txs a)
  /\ turnCountOf a <= turnCountOf (execAll txs a).
Proof.
  induction txs as [ | tx txs IH ]; intros a Hinit Hwp Hall.
  - split; [ assumption | split; [ assumption | apply N.le_refl ] ].
  - inversion Hall as [ | ? ? Hcap Hrest ]; subst.
    unfold execAll. cbn [fold_left]. fold (execAll txs (exec tx a)).
    unfold exec. destruct (invoke tx a) as [[a' out] | msg] eqn:H.
    + destruct (step_turnState limit tx a a' out Hinit Hwp Hcap H) as (K1 & K2 & _).
      destruct (step_turnCount limit tx a a' out Hinit Hwp Hcap H) as (_ & _ & Hle & _).
      destruct (IH a' K1 K2 Hrest) as (J1 & J2 & J3).
      repeat split; try assumption. lia.
    + apply IH; assumption.
Qed.

(** X21. A proof cannot be replayed, as long as every submitted proof carries
    a turn count within the capacity of the turn state's packing (a bound
    that submitGameProof does not check): once submitGameProof has accepted
    such a proof on an account reached by accepted transactions with such
    proofs, then, whatever transactions with such proofs follow, every
    submitGameProof with a proof whose turn count is not larger than the
    accepted one's is rejected and changes nothing. *)
Theorem proof_cannot_be_replayed zkapp tx0 a a0 out0 proof0 txs tx proof :
  reachable limit zkapp a ->
  inCapacity limit tx0 ->
  tx_call tx0 = SubmitGameProof proof0 ->
  invoke tx0 a = Ok (a0, out0) ->
  Forall (inCapacity limit) txs ->
  tx_call tx = SubmitGameProof proof ->
  po_turnCount (publicOutput proof) <= po_turnCount (publicOutput proof0) ->
  (exists msg, invoke tx (execAll txs a0) = Err msg)
  /\ exec tx (execAll txs a0) = execAll txs a0.
Proof.
  intros Hreach Hcap0 Hc0 H0 Hall Hc Hold.
  apply (reachable_wellPacked limit) in Hreach.
  assert (Hinit : provedState a = true)
    by (apply (accepted_needs_init tx0 a a0 out0); [ rewrite Hc0; reflexivity | exact H0 ]).
  destruct (step_turnState limit tx0 a a0 out0 Hinit Hreach Hcap0 H0)
    as (Hinit0 & Hwp0 & _ & Hnext & _).
  unfold nextTurnCount in Hnext. rewrite Hc0 in Hnext. cbv iota in Hnext.
  destruct (turnCount_monotone_all txs a0 Hinit0 Hwp0 Hall) as (_ & _ & Hle).
  assert (Hrej : exists msg, invoke tx (execAll txs a0) = Err msg).
  { apply not_Ok_Err. intros [a' out] H.
    pose proof (submitGameProof_turnCount_grows tx (execAll txs a0) a' out proof Hc H).
    lia. }
  split; [ exact Hrej | apply exec_rejected, Hrej ].
Qed.

End CodecLifecycle.

(** * The further scenarios *)

(** Witness of X4: after init, create and accept, a second initGame is
    rejected. *)
Lemma initGame_only_once_witness :
  refInvoke (mkTx intruderKey 3 (InitGame 7 intruderKey))
            (refExecAll [createTx; acceptTx] initialized)
  = Err "The game has already been initialized!".
Proof.
  apply (initGame_only_once (P := toyPoseidon) (U := refUtils)
           initTx (deployed zkappKey) initialized []);
    vm_compute; reflexivity.
Defined.

(** Witness of X5: initGame with maxAttempts 5 on the deployed account. *)
Lemma initGame_sets_up_witness :
  refInvoke initTx (deployed zkappKey)
  = Ok (mkAccount zkappKey true
          (mkAppState (refCompressTurnCountMaxAttemptSolved [0; 5; 0])
                      0 0 (toyHash (toFields refereeKey)) 0 0 0 0),
        []).
Proof.
  destruct (initGame_sets_up (P := toyPoseidon) (U := refUtils)
              initTx (deployed zkappKey) 5 refereeKey eq_refl eq_refl)
    as (_ & _ & Hok).
  apply Hok. split; vm_compute; discriminate.
Defined.

(** Witness of X8: createGame on the deployed, not yet initialized account. *)
Lemma uninitialized_rejects_witness :
  refInvoke createTx (deployed zkappKey)
  = Err "The game has not been initialized yet!".
Proof.
  apply (uninitialized_rejects (P := toyPoseidon) (U := refUtils)
           createTx (deployed zkappKey));
    vm_compute; reflexivity.
Defined.

(** Witness of X13: a guess at slot 12 on the accepted game, whose finalize
    slot is 10. *)
Lemma deadline_stops_play_witness :
  refInvoke lateGuessTx accepted = Err "The game has already been finalized!"
  /\ refExec lateGuessTx accepted = accepted.
Proof.
  destruct (deadline_stops_play (P := toyPoseidon) (U := refUtils)
              lateGuessTx accepted) as (_ & Hsame & Hmsg).
  - vm_compute; reflexivity.
  - vm_compute; discriminate.
  - reflexivity.
  - split; [ apply Hmsg; reflexivity | exact Hsame ].
Defined.

(** Witness of X16: the intruder tries to penalize the codeBreaker. *)
Lemma penalty_needs_referee_witness :
  refInvoke (mkTx intruderKey 0 (PenalizeCodeBreaker codeMasterKey)) accepted
  = Err "You are not the referee of this game!".
Proof.
  destruct (penalty_needs_referee (P := toyPoseidon) (U := refUtils)
              (mkTx intruderKey 0 (PenalizeCodeBreaker codeMasterKey))
              accepted codeMasterKey) as (Hnot & _).
  - vm_compute; reflexivity.
  - left. reflexivity.
  - apply Hnot. vm_compute; discriminate.
Defined.

(** Witness of X17: the intruder tries to answer the first guess. *)
Lemma giveClue_needs_codeMaster_witness :
  refInvoke (mkTx intruderKey 1 (GiveClue 1234 salt0)) firstGuessMade
  = Err "Only the codeMaster of this game is allowed to give clue!".
Proof.
  apply (giveClue_needs_codeMaster (P := toyPoseidon) (U := refUtils)
           (mkTx intruderKey 1 (GiveClue 1234 salt0)) firstGuessMade 1234 salt0 eq_refl).
  - vm_compute; reflexivity.
  - vm_compute; reflexivity.
  - vm_compute; discriminate.
Defined.

(** Witness of X9: after the codeBreaker accepted and guessed, the intruder's
    acceptGame is rejected. *)
Lemma acceptGame_only_once_witness :
  refInvoke (mkTx intruderKey 2 AcceptGame)
            (refExecAll [guess codeBreakerKey 2134] accepted)
  = Err "The game has already been accepted by the codeBreaker!".
Proof.
  apply (acceptGame_only_once (P := toyPoseidon) (U := refUtils)
           acceptTx created accepted [mkSend codeBreakerKey zkappKey 100000]).
  - reflexivity.
  - vm_compute; reflexivity.
  - vm_compute; discriminate.
  - constructor; [ vm_compute; discriminate | constructor ].
  - reflexivity.
Defined.

(** Witness of X12: the solved game keeps its turn state, guess and clue
    through a guess, a clue and the codeBreaker's claim. *)
Lemma solved_game_is_frozen_witness :
  turnCountMaxAttemptsIsSolved
    (appState (refExecAll [guess codeBreakerKey 2134; clue1234;
                           mkTx codeBreakerKey 10 ClaimReward] solved))
  = turnCountMaxAttemptsIsSolved (appState solved)
  /\ @isSolvedOf refUtils solved = 1.
Proof.
  destruct (solved_game_is_frozen (P := toyPoseidon) (U := refUtils)
              [guess codeBreakerKey 2134; clue1234; mkTx codeBreakerKey 10 ClaimReward]
              solved) as (Hstate & _).
  - vm_compute; reflexivity.
  - vm_compute; discriminate.
  - vm_compute; discriminate.
  - split; [ exact Hstate | vm_compute; reflexivity ].
Defined.

(** Witness of X14: the codeMaster's claim at slot 10 is accepted, so the
    guess at slot 12 is not. *)
Lemma claim_excludes_play_witness :
  (exists msg, refInvoke lateGuessTx accepted = Err msg)
  /\ refExec lateGuessTx accepted = accepted.
Proof.
  apply (claim_excludes_play (P := toyPoseidon) (U := refUtils)
           claimTx lateGuessTx accepted accepted
           [mkSend zkappKey codeMasterKey 200000]).
  - reflexivity.
  - vm_compute; reflexivity.
  - reflexivity.
  - vm_compute; discriminate.
Defined.

(** Witness of X15: two claims of the codeMaster, at slots 10 and 11. *)
Lemma claimers_share_identity_witness :
  @callerId toyPoseidon claimTx
  = @callerId toyPoseidon (mkTx codeMasterKey 11 ClaimReward).
Proof.
  destruct (claimers_share_identity (P := toyPoseidon) (U := refUtils)
              claimTx (mkTx codeMasterKey 11 ClaimReward) accepted
              accepted [mkSend zkappKey codeMasterKey 200000]
              accepted [mkSend zkappKey codeMasterKey 200000]) as (Hsame & _).
  - reflexivity.
  - reflexivity.
  - vm_compute; reflexivity.
  - vm_compute; reflexivity.
  - exact Hsame.
Defined.

(** Witness of X18: acceptGame takes the stored reward from its sender. *)
Lemma transfers_by_kind_witness :
  [mkSend codeBreakerKey zkappKey 100000] = @transfersOf refUtils acceptTx created
  /\ address accepted = address created.
Proof.
  apply (transfers_by_kind (P := toyPoseidon) (U := refUtils) acceptTx created).
  vm_compute; reflexivity.
Defined.

(** Witness of X19: the first clue answers the stored guess 2134. *)
Lemma giveClue_answers_stored_guess_witness :
  @callerId toyPoseidon clue1234 = codeMasterId (appState firstGuessMade)
  /\ serializedClue (appState firstClueGiven)
     = refSerializeClue (refGetClueFromGuess [2; 1; 3; 4] [1; 2; 3; 4]).
Proof.
  destruct (giveClue_answers_stored_guess (P := toyPoseidon) (U := refUtils)
              clue1234 firstGuessMade firstClueGiven [] 1234 salt0 eq_refl)
    as (Hid & (guessDigits & solution & Hg & Hs & _ & Hclue) & _).
  - vm_compute; reflexivity.
  - split; [ exact Hid | ].
    vm_compute in Hg. injection Hg as <-.
    vm_compute in Hs. injection Hs as <-.
    exact Hclue.
Defined.

(** Witness of X20: the codeBreaker's first guess. *)
Lemma makeGuess_records_valid_guess_witness :
  unseparatedGuess (appState firstGuessMade) = 2134
  /\ N.odd (@turnCountOf refUtils accepted) = true.
Proof.
  destruct (makeGuess_records_valid_guess (P := toyPoseidon) (U := refUtils)
              (guess codeBreakerKey 2134) accepted firstGuessMade [] 2134 eq_refl)
    as (_ & Hodd & _ & _ & Hguess & _).
  - vm_compute; reflexivity.
  - split; [ exact Hguess | exact Hodd ].
Defined.

(** Witness of X22: the codeBreaker claims the unsolved game at slot 10. *)
Lemma claimReward_rejections_witness :
  refInvoke (mkTx codeBreakerKey 10 ClaimReward) accepted
  = Err "You are not the winner of this game!".
Proof.
  destruct (claimReward_rejections (P := toyPoseidon) (U := refUtils)
              (mkTx codeBreakerKey 10 ClaimReward) accepted eq_refl)
    as (_ & _ & Hloser).
  apply Hloser.
  - vm_compute; discriminate.
  - right. vm_compute; reflexivity.
  - vm_compute; reflexivity.
Defined.




(** Witness of X11: the proof with an all-hits clue and turn count 11, past
    2 * 5, is accepted and leaves the game unsolved. *)
Lemma submitGameProof_solves_below_limit_witness :
  isOk (refInvoke exhaustedTx accepted) = true
  /\ forallb (N.eqb 2)
       (refDeserializeClue (po_serializedClue (publicOutput exhaustedProof))) = true
  /\ @isSolvedOf refUtils (refExec exhaustedTx accepted) = 0.
Proof.
  split; [ vm_compute; reflexivity | ].
  split; [ vm_compute; reflexivity | ].
  destruct (submitGameProof_solves_below_limit (P := toyPoseidon) (U := refUtils)
              256 (L := refUtils_laws) zkappKey exhaustedTx accepted
              (refExec exhaustedTx accepted) [] exhaustedProof reachable_accepted)
    as (_ & Hfull).
  - vm_compute; reflexivity.
  - reflexivity.
  - vm_compute; reflexivity.
  - apply Hfull. vm_compute; discriminate.
Defined.

(** Witness of X21: the completed proof, accepted once, is rejected when it
    is submitted again. *)
Lemma proof_cannot_be_replayed_witness :
  (exists msg, refInvoke submitTx (refExec submitTx accepted) = Err msg)
  /\ refExec submitTx (refExec submitTx accepted) = refExec submitTx accepted.
Proof.
  apply (proof_cannot_be_replayed (P := toyPoseidon) (U := refUtils)
           256 (L := refUtils_laws) zkappKey submitTx accepted
           (refExec submitTx accepted) [] completedProof [] submitTx completedProof
           reachable_accepted).
  - vm_compute; reflexivity.
  - reflexivity.
  - vm_compute; reflexivity.
  - constructor.
  - reflexivity.
  - vm_compute; discriminate.
Defined.

